(** * PixelMuse: the image-to-ASCII conversion of [ASCIIPainter.jsx]

    A shallow embedding of the conversion pipeline of
    [pixelmuse/src/ASCIIPainter.jsx]: the cell geometry, the luminance
    quantiser and the text / markup serialisation of [toASCII], the
    [escapeForHtml] helper and the [asciiFontSize] derivation.  Around
    the pipeline it also covers the line height, the export document of
    [buildColorAsciiDocument] with the copy and download handlers,
    [clearCanvas], the pointer handlers with [getPos] and [drawLine]
    (module [Paint]) and the dot grid of [drawDots] (module [Dots]).

    Modelling conventions.
    - Canvas dimensions, the column count, loop counters and buffer
      indices are JavaScript numbers holding integers; they are
      modelled in [Z].  For a positive integer divisor,
      [Math.floor (a / b)] is integer division.
    - The other JavaScript numbers (slider ratios, luminance, font
      sizes) are modelled as exact rationals [Q] extended with [NaN].
      The rounding of IEEE doubles is not part of that model; module
      [Binary64] evaluates the quantiser in double precision to compare
      the two on concrete samples.
    - A JavaScript string is the list of its UTF-16 code units.
    - [drawImage] / [getImageData] belong to the browser; a canvas
      carries, as a field, what reading it back at a given size yields.
      Both calls throw where there is no pixel to draw or to read
      ([standardCanvas]), and then the handler writes nothing.
    - The geometry stands for the source for a column count of at least
      one, the range of the slider being 40 to 400. *)

From Stdlib Require Import String Ascii ZArith QArith Qround Qabs List.
From Stdlib Require Import Lia Lqa Bool DecimalString.
From Stdlib Require Import Floats.SpecFloat.
Import ListNotations.

Local Open Scope Z_scope.

(** ** JavaScript values used by the component *)

Module Js.

(** One UTF-16 code unit. *)
Definition codeUnit := N.

(** A string, as the sequence of its code units. *)
Definition jsString := list codeUnit.

(** A string literal of the source made of ASCII characters. *)
Definition lit (s : string) : jsString :=
  map N_of_ascii (list_ascii_of_string s).

(** The line feed and the double quote, which string literals of the
    source spell with an escape. *)
Definition LF : codeUnit := 10%N.
Definition DQUOTE : codeUnit := 34%N.

(** [a === b] on two strings. *)
Fixpoint strictEq (a b : jsString) : bool :=
  match a, b with
  | [], [] => true
  | x :: a', y :: b' => N.eqb x y && strictEq a' b'
  | _, _ => false
  end.

(** The values a palette lookup can produce and [escapeForHtml] can
    receive: [undefined] or a string. *)
Inductive value :=
| Undefined
| Str (s : jsString).

(** String conversion, as done by [+=] on a string and by a template
    literal. *)
Definition ToString (v : value) : jsString :=
  match v with
  | Undefined => lit "undefined"
  | Str s => s
  end.

(** A number: a rational, or NaN. *)
Inductive number :=
| NaN
| Num (q : Q).

Definition lift2 (f : Q -> Q -> Q) (a b : number) : number :=
  match a, b with
  | Num x, Num y => Num (f x y)
  | _, _ => NaN
  end.

Definition add := lift2 Qplus.
Definition sub := lift2 Qminus.
Definition mul := lift2 Qmult.

(** Division; the component only ever divides by the non-zero
    constants 255 and 100. *)
Definition div := lift2 Qdiv.

(** [Math.max] and [Math.min] of two arguments: NaN if either is. *)
Definition Math_max := lift2 (fun x y => if Qle_bool x y then y else x).
Definition Math_min := lift2 (fun x y => if Qle_bool x y then x else y).

(** [Math.round]: the nearest integer, ties going up. *)
Definition Math_round (a : number) : option Z :=
  match a with
  | NaN => None
  | Num x => Some (Qfloor (x + (1 # 2)))
  end.

(** An element of a typed array read at an index: [undefined] outside
    the array. *)
Definition index (data : list Z) (i : Z) : option Z :=
  if i <? 0 then None else nth_error data (Z.to_nat i).

(** Numeric conversion of such an element. *)
Definition ToNumber (v : option Z) : number :=
  match v with
  | None => NaN
  | Some z => Num (inject_Z z)
  end.

(** String conversion of such an element inside a template literal. *)
Definition showElement (v : option Z) : jsString :=
  match v with
  | None => lit "undefined"
  | Some z => lit (NilZero.string_of_int (Z.to_int z))
  end.

(** [chars[ci]]: the one-unit string at an integer index inside the
    string, [undefined] otherwise. *)
Definition charAt (chars : jsString) (ci : option Z) : value :=
  match ci with
  | None => Undefined
  | Some i =>
      if i <? 0 then Undefined
      else match nth_error chars (Z.to_nat i) with
           | Some c => Str [c]
           | None => Undefined
           end
  end.

(** The values of the counter of [for (let i = 0; i < n; i++)]. *)
Definition upto (n : Z) : list Z := map Z.of_nat (seq 0 (Z.to_nat n)).

(** The pieces of a text between line feeds, as splitting it at line
    feeds gives them: a text that ends in a line feed has an empty
    last piece. *)
Fixpoint splitLines (s : jsString) : list jsString :=
  match s with
  | [] => [[]]
  | c :: s' =>
      if N.eqb c LF then [] :: splitLines s'
      else match splitLines s' with
           | l :: ls => (c :: l) :: ls
           | [] => [[c]]
           end
  end.

End Js.

Import Js.

(** ** Module-level helpers and constants of [ASCIIPainter.jsx] *)

Definition escapeForHtml (char : value) : value :=
  match char with
  | Undefined => char
  | Str s =>
      if strictEq s (lit "&") then Str (lit "&amp;")
      else if strictEq s (lit "<") then Str (lit "&lt;")
      else if strictEq s (lit ">") then Str (lit "&gt;")
      else if strictEq s [DQUOTE] then Str (lit "&quot;")
      else if strictEq s (lit "'") then Str (lit "&#39;")
      else if strictEq s (lit " ") then Str (lit "&nbsp;")
      else char
  end.

Definition ASCII_TARGET_WIDTH : Q := 900.
Definition ASCII_MAX_FONT_SIZE : Q := 12.
Definition ASCII_MIN_FONT_SIZE : Q := 3.
Definition ASCII_CHAR_ASPECT_RATIO : Q := 6 # 10.

(** [Number (x.toFixed (2))]: the multiple of 1/100 nearest to [x], the
    larger one on a tie. *)
Definition toFixed2 (x : Q) : Q := Qfloor (x * 100 + (1 # 2)) # 100.

Definition Qmax (x y : Q) : Q := if Qle_bool x y then y else x.
Definition Qmin (x y : Q) : Q := if Qle_bool x y then x else y.

(** The local [widthLimitedFont] of the [asciiFontSize] memo. *)
Definition widthLimitedFont (columns : Z) : Q :=
  let safeColumns := Z.max 1 columns in
  ASCII_TARGET_WIDTH / (inject_Z safeColumns * ASCII_CHAR_ASPECT_RATIO).

Definition asciiFontSize (columns : Z) : Q :=
  let clampedFont :=
    Qmax ASCII_MIN_FONT_SIZE
         (Qmin ASCII_MAX_FONT_SIZE (widthLimitedFont columns)) in
  toFixed2 clampedFont.

(** The [PRESETS] table of palettes. *)
Definition PRESET_Classic : jsString := lit " .:-=+*#%@".

Definition PRESET_UltraDense : jsString :=
  lit " .'`^" ++ [DQUOTE]
  ++ lit ",:;Il!i><~+_-?][}{1)(|\/tfjrxnuvczXYUJCLQ0OZmwqpdbkhao*#MW&8%B@$".

Definition PRESET_Blocks : jsString :=
  [32; 9617; 9618; 9619; 9608]%N.

Definition PRESET_DotMatrix : jsString :=
  [183; 8226; 9679; 9675; 9702]%N.

Definition PRESETS : list jsString :=
  [PRESET_Classic; PRESET_UltraDense; PRESET_Blocks; PRESET_DotMatrix].

(** ** The component state read and written by [toASCII] *)

(** A canvas: its size and, for the browser's part, the RGBA bytes that
    drawing it scaled to [w] x [h] on the ghost canvas and reading that
    area back yields ([None] when the browser call throws). *)
Record Canvas := {
  width : Z;
  height : Z;
  scaledData : Z -> Z -> option (list Z)
}.

(** The style state of the component. *)
Record Style := {
  columns : Z;
  lineHeightRatio : Q;
  charset : jsString;
  invert : bool;
  densityBias : Q
}.

(** The output state: the two artifacts and the dialog flag. *)
Record Output := {
  ascii : jsString;
  colorAsciiHtml : jsString;
  showDialog : bool
}.

(** ** [toASCII]: geometry *)

(** [cellW], for a column count of at least one: at zero columns the
    source divides by zero, which integer division does not render. *)
Definition cellW (sourceWidth columns : Z) : Z :=
  Z.max 1 (sourceWidth / columns).

(** [cellH], with the exact product: where that product is an integer
    the double of the source can fall just under it (45 * 1.4), and the
    source then floors to one less. *)
Definition cellH (cellW : Z) (lineHeightRatio : Q) : Z :=
  Z.max 1 (Qfloor (inject_Z cellW * lineHeightRatio)).

Definition outW (sourceWidth cellW : Z) : Z := sourceWidth / cellW.

Definition outH (sourceHeight cellH : Z) : Z := sourceHeight / cellH.

(** ** [toASCII]: the two loops *)

Section Cell.

Variable st : Style.

(** [lum] after its first assignment. *)
Definition luma (r g b : option Z) : number :=
  add (add (mul (Num (299 # 1000)) (ToNumber r))
           (mul (Num (587 # 1000)) (ToNumber g)))
      (mul (Num (114 # 1000)) (ToNumber b)).

(** [lum] after the clamp. *)
Definition clampedLum (r g b : option Z) : number :=
  Math_min (Num 1)
    (Math_max (Num 0)
       (add (div (luma r g b) (Num 255))
            (div (Num (densityBias st)) (Num 100)))).

(** [lum] after [if (!invert) lum = 1 - lum]. *)
Definition orientedLum (r g b : option Z) : number :=
  if negb (invert st) then sub (Num 1) (clampedLum r g b)
  else clampedLum r g b.

Definition ci (r g b : option Z) : option Z :=
  Math_round
    (mul (orientedLum r g b)
         (Num (inject_Z (Z.of_nat (length (charset st)) - 1)))).

Definition char (r g b : option Z) : value :=
  charAt (charset st) (ci r g b).

(** The markup appended to [colorRow] for one cell. *)
Definition span (r g b : option Z) : jsString :=
  lit "<span style=" ++ [DQUOTE] ++ lit "color: rgb("
    ++ showElement r ++ lit ", " ++ showElement g ++ lit ", "
    ++ showElement b ++ lit ")" ++ [DQUOTE] ++ lit ">"
    ++ ToString (escapeForHtml (char r g b)) ++ lit "</span>".

Variable data : list Z.
Variable outW : Z.

(** The three channels read for the cell at column [x] of row [y]. *)
Definition red (x y : Z) := index data ((y * outW + x) * 4).
Definition green (x y : Z) := index data ((y * outW + x) * 4 + 1).
Definition blue (x y : Z) := index data ((y * outW + x) * 4 + 2).

(** One turn of the inner loop on the pair [(row, colorRow)]. *)
Definition cellStep (y : Z) (acc : jsString * jsString) (x : Z)
  : jsString * jsString :=
  let r := red x y in
  let g := green x y in
  let b := blue x y in
  (fst acc ++ ToString (char r g b), snd acc ++ span r g b).

(** One turn of the outer loop on the pair [(result, colorResult)]. *)
Definition rowStep (acc : jsString * jsString) (y : Z)
  : jsString * jsString :=
  let rows := fold_left (cellStep y) (upto outW) ([], []) in
  (fst acc ++ fst rows ++ [LF], snd acc ++ snd rows ++ [LF]).

(** Both loops, from [let result] to the end of the last row. *)
Definition render (outH : Z) : jsString * jsString :=
  fold_left rowStep (upto outH) ([], []).

(** Names for the parts of the result: the palette lookup and the
    markup of the cell at column [x] of row [y], and the text and
    markup of row [y] without its line feed. *)
Definition cellValue (x y : Z) : value :=
  char (red x y) (green x y) (blue x y).

Definition cellMarkup (x y : Z) : jsString :=
  span (red x y) (green x y) (blue x y).

Definition rowText (y : Z) : jsString :=
  concat (map (fun x => ToString (cellValue x y)) (upto outW)).

Definition rowMarkup (y : Z) : jsString :=
  concat (map (fun x => cellMarkup x y) (upto outW)).

(** The code unit written for a cell ([0] stands in where the lookup
    is undefined). *)
Definition cellUnit (x y : Z) : codeUnit :=
  match cellValue x y with
  | Str [c] => c
  | _ => 0%N
  end.

(** The rows of the character grid, top to bottom, each left to
    right. *)
Definition gridRows (outH : Z) : list jsString :=
  map (fun y => map (fun x => cellUnit x y) (upto outW)) (upto outH).

End Cell.

(** ** [toASCII] *)

(** The handler leaves the state alone when a canvas reference is
    missing, and also when a browser call throws before the setters
    run; otherwise it stores both artifacts and opens the dialog. *)
Definition toASCII (artRef ghostRef : option Canvas) (st : Style)
    (out : Output) : Output :=
  match artRef, ghostRef with
  | Some source, Some _ =>
      let cellW := cellW (width source) (columns st) in
      let cellH := cellH cellW (lineHeightRatio st) in
      let outW := outW (width source) cellW in
      let outH := outH (height source) cellH in
      match scaledData source outW outH with
      | None => out
      | Some data =>
          let res := render st data outW outH in
          {| ascii := fst res;
             colorAsciiHtml := snd res;
             showDialog := true |}
      end
  | _, _ => out
  end.

(** ** Vocabulary of the statements *)

(** The text of a list of rows: each row followed by a line feed. *)
Definition unlines (rows : list jsString) : jsString :=
  concat (map (fun row => row ++ [LF]) rows).

(** The luminance of a sample whose three channels are defined. *)
Definition lumQ (r g b : Z) : Q :=
  (299 # 1000) * inject_Z r + (587 # 1000) * inject_Z g
  + (114 # 1000) * inject_Z b.

(** [Math.min (1, Math.max (0, v))] on a rational. *)
Definition clamp01 (v : Q) : Q :=
  let m := (if Qle_bool 0 v then v else 0)%Q in
  (if Qle_bool 1 m then 1 else m)%Q.

(** The oriented, clamped luminance of a defined sample. *)
Definition orientQ (st : Style) (r g b : Z) : Q :=
  let c := clamp01 (lumQ r g b / 255 + densityBias st / 100) in
  (if negb (invert st) then 1 - c else c)%Q.

(** Every cell of the [ow] x [oh] grid reads as black. *)
Definition allBlack (data : list Z) (ow oh : Z) : Prop :=
  forall x y, 0 <= x < ow -> 0 <= y < oh ->
    red data ow x y = Some 0 /\
    green data ow x y = Some 0 /\
    blue data ow x y = Some 0.

(** A canvas that is always read back as the same buffer, or whose
    read-back always throws. *)
Definition canvasOf (w h : Z) (data : option (list Z)) : Canvas :=
  {| width := w; height := h; scaledData := fun _ _ => data |}.

(** What the platform fixes about reading a canvas back: [drawImage]
    throws on a source canvas without pixels, and [getImageData] on an
    area without pixels. *)
Definition standardCanvas (c : Canvas) : Prop :=
  forall ow oh,
    width c <= 0 \/ height c <= 0 \/ ow <= 0 \/ oh <= 0 ->
    scaledData c ow oh = None.

(** The bytes of an [ow] x [oh] read-back in which every cell has the
    colour [(r, g, b)], fully opaque. *)
Definition solidBuffer (r g b ow oh : Z) : list Z :=
  concat (repeat [r; g; b; 255] (Z.to_nat (ow * oh))).

(** A raster of one colour: every scaled read-back is that colour in
    each of its cells; as on any canvas, the read-back throws when the
    raster or the area read has no pixel. *)
Definition solidCanvas (w h r g b : Z) : Canvas :=
  {| width := w; height := h;
     scaledData := fun ow oh =>
       if (w <=? 0) || (h <=? 0) || (ow <=? 0) || (oh <=? 0) then None
       else Some (solidBuffer r g b ow oh) |}.

(** The initial output state of the component. *)
Definition noOutput : Output :=
  {| ascii := []; colorAsciiHtml := []; showDialog := false |}.

(** The initial style state, at a given column count and row aspect. *)
Definition classicStyle (cols : Z) (ratio : Q) : Style :=
  {| columns := cols; lineHeightRatio := ratio;
     charset := PRESET_Classic; invert := false; densityBias := 0 |}.

(** The font-size rule in the specification's words: the width-limited
    size clamped to the font range, then rounded to two decimals. *)
Definition clamp (x lo hi : Q) : Q :=
  if Qlt_le_dec x lo then lo
  else if Qlt_le_dec hi x then hi
  else x.

Definition specFontSize (columns : Z) : Q :=
  toFixed2
    (clamp (ASCII_TARGET_WIDTH / (inject_Z columns * ASCII_CHAR_ASPECT_RATIO))
           ASCII_MIN_FONT_SIZE ASCII_MAX_FONT_SIZE).

(** [y] is [x] rounded to two decimals: a whole number of hundredths at
    most half a hundredth away. *)
Definition roundedTo2 (x y : Q) : Prop :=
  (exists n : Z, y = n # 100) /\ (Qabs (y - x) <= 1 # 200)%Q.

(** The code units [escapeForHtml] replaces: ampersand, angle brackets,
    double quote, apostrophe and space. *)
Definition AMP : codeUnit := 38%N.
Definition LT : codeUnit := 60%N.
Definition GT : codeUnit := 62%N.
Definition APOS : codeUnit := 39%N.
Definition SPACE : codeUnit := 32%N.

Definition replaced : list codeUnit := [AMP; LT; GT; DQUOTE; APOS; SPACE].

(** The six replacement strings. *)
Definition entities : list jsString :=
  [lit "&amp;"; lit "&lt;"; lit "&gt;"; lit "&quot;"; lit "&#39;";
   lit "&nbsp;"].

(** A text in which every replaced code unit occurs only inside a
    replacement string: it is one of the six replacements, or none of
    the six code units occurs in it. *)
Definition escapedText (s : jsString) : Prop :=
  In s entities \/ Forall (fun c => ~ In c replaced) s.

(** The escaped character inside the [span] of a cell. *)
Definition cellContent (st : Style) (r g b : option Z) : jsString :=
  ToString (escapeForHtml (char st r g b)).

(** ** The quantiser in double precision *)

(** The inner-loop arithmetic evaluated on IEEE 754 binary64 values,
    for integer channels and an integer density bias (the slider moves
    in steps of one). *)
Module Binary64.

Definition prec : Z := 53.
Definition emax : Z := 1024.

Definition ofZ (z : Z) : spec_float :=
  match z with
  | Z0 => S754_zero false
  | Zpos _ => binary_normalize prec emax z 0 false
  | Zneg p => SFopp (binary_normalize prec emax (Zpos p) 0 false)
  end.

Definition add := SFadd prec emax.
Definition sub := SFsub prec emax.
Definition mul := SFmul prec emax.
Definition div := SFdiv prec emax.

(** The double denoted by a decimal literal with value [n / d]. *)
Definition decimal (n d : Z) : spec_float := div (ofZ n) (ofZ d).

Definition isNaN (x : spec_float) : bool :=
  match x with S754_nan => true | _ => false end.

Definition leb (x y : spec_float) : bool :=
  match SFcompare x y with
  | Some Lt | Some Eq => true
  | _ => false
  end.

Definition Math_max (x y : spec_float) : spec_float :=
  if isNaN x || isNaN y then S754_nan else if leb x y then y else x.

Definition Math_min (x y : spec_float) : spec_float :=
  if isNaN x || isNaN y then S754_nan else if leb x y then x else y.

(** The exact value of a finite double. *)
Definition toQ (x : spec_float) : option Q :=
  match x with
  | S754_zero _ => Some 0%Q
  | S754_finite s m e =>
      let v := (inject_Z (Zpos m) * 2 ^ e)%Q in
      Some (if s then (- v)%Q else v)
  | _ => None
  end.

Definition Math_round (x : spec_float) : option Z :=
  match toQ x with
  | Some q => Some (Qfloor (q + (1 # 2)))
  | None => None
  end.

Definition ci (len : Z) (invert : bool) (densityBias r g b : Z)
  : option Z :=
  let lum :=
    add (add (mul (decimal 299 1000) (ofZ r))
             (mul (decimal 587 1000) (ofZ g)))
        (mul (decimal 114 1000) (ofZ b)) in
  let lum :=
    Math_min (ofZ 1)
      (Math_max (ofZ 0)
         (add (div lum (ofZ 255)) (div (ofZ densityBias) (ofZ 100)))) in
  let lum := if negb invert then sub (ofZ 1) lum else lum in
  Math_round (mul lum (ofZ (len - 1))).

(** [ASCII_TARGET_WIDTH / (columns * ASCII_CHAR_ASPECT_RATIO)]. *)
Definition widthLimitedFont (columns : Z) : spec_float :=
  div (ofZ 900) (mul (ofZ (Z.max 1 columns)) (decimal 6 10)).

End Binary64.

(** ** Tactics *)

(** Case analysis on the comparisons of a goal, innermost first. *)
Ltac case_Qle :=
  repeat (match goal with
          | |- context [Qle_bool ?a ?b] =>
              lazymatch b with
              | context [Qle_bool _ _] => fail
              | _ =>
                  let E := fresh "E" in
                  destruct (Qle_bool a b) eqn:E;
                  [apply Qle_bool_iff in E
                  |assert (b < a)%Q
                     by (apply Qnot_le_lt; intros C;
                         apply Qle_bool_iff in C; congruence)]
              end
          end; cbv iota).

(** ** Line height *)

Definition ASCII_BASE_LINE_HEIGHT : Q := 11 # 10.

(** The [asciiLineHeight] memo, as a function of the font size it
    depends on. *)
Definition asciiLineHeight (fontSize : Q) : Q :=
  let scale := (fontSize / ASCII_MAX_FONT_SIZE)%Q in
  let computed := (ASCII_BASE_LINE_HEIGHT * Qmax scale (75 # 100))%Q in
  toFixed2 computed.

(** The local [clampedFont] of the [asciiFontSize] memo. *)
Definition clampedFont (columns : Z) : Q :=
  Qmax ASCII_MIN_FONT_SIZE
       (Qmin ASCII_MAX_FONT_SIZE (widthLimitedFont columns)).

(** ** Font size and line height in double precision *)

Module Binary64Font.

(** [x.toFixed (2)] on a non-negative double, as the number of
    hundredths its digits spell. *)
Definition toFixed2 (x : spec_float) : option Z :=
  match Binary64.toQ x with
  | Some q => Some (Qfloor (q * 100 + (1 # 2)))
  | None => None
  end.

(** [Number (s)] for the digits of [n] hundredths. *)
Definition ofHundredths (n : Z) : spec_float := Binary64.decimal n 100.

Definition asciiFontSize (columns : Z) : option Z :=
  let clampedFont :=
    Binary64.Math_max (Binary64.ofZ 3)
      (Binary64.Math_min (Binary64.ofZ 12)
         (Binary64.widthLimitedFont columns)) in
  toFixed2 clampedFont.

Definition asciiLineHeight (fontHundredths : Z) : option Z :=
  let scale := Binary64.div (ofHundredths fontHundredths) (Binary64.ofZ 12) in
  let computed :=
    Binary64.mul (Binary64.decimal 11 10)
      (Binary64.Math_max scale (Binary64.decimal 75 100)) in
  toFixed2 computed.

End Binary64Font.

(** The integers from [lo] to [hi]. *)
Definition Zrange (lo hi : Z) : list Z :=
  map (fun k => lo + Z.of_nat k) (seq 0 (Z.to_nat (hi - lo + 1))).

(** The number of hundredths of a number printed with two decimals. *)
Definition hundredths (x : Q) : Z := Qfloor (x * 100).

(** ** [clearCanvas] and the resize handler, on the art canvas *)

(** The art canvas after [fillRect] with white over its whole area: a
    raster of that one colour. *)
Definition fillWhite (art : Canvas) : Canvas :=
  solidCanvas (width art) (height art) 255 255 255.

(** [clearCanvas], on the art canvas and the output state (what it
    draws on the visible canvas is left out): the art canvas, when
    there is one, is filled with white and both artifacts are reset. *)
Definition clearCanvas (artRef : option Canvas) (out : Output)
  : option Canvas * Output :=
  (option_map fillWhite artRef,
   {| ascii := []; colorAsciiHtml := []; showDialog := showDialog out |}).


(** ** [buildColorAsciiDocument] *)

(** One decimal digit as a code unit. *)
Definition digit (d : Z) : codeUnit := (48 + Z.to_N d)%N.

(** The digits of a non-negative integer. *)
Definition showInt (n : Z) : jsString :=
  lit (NilZero.string_of_int (Z.to_int n)).

(** [x.toFixed (2)] as a string: the sign, then the digits of the
    nearest whole number of hundredths of the magnitude (the larger one
    on a tie), with the point before the last two. *)
Definition toFixedDigits (x : Q) : jsString :=
  let n := Qfloor (x * 100 + (1 # 2)) in
  showInt (n / 100) ++ lit "." ++ [digit (n mod 100 / 10); digit (n mod 10)].

Definition NumberToFixed2 (x : Q) : jsString :=
  if Qlt_le_dec x 0 then lit "-" ++ toFixedDigits (- x)
  else toFixedDigits x.

(** String conversion of a number inside a template literal, for the
    numbers the document prints: non-negative whole numbers of
    hundredths.  Trailing zeros of the fraction are not printed. *)
Definition showNumber (x : Q) : jsString :=
  let n := Qfloor (x * 100) in
  let d1 := n mod 100 / 10 in
  let d2 := n mod 10 in
  showInt (n / 100)
  ++ (if (d1 =? 0) && (d2 =? 0) then []
      else lit "." ++ [digit d1] ++ (if d2 =? 0 then [] else [digit d2])).

(** The locals [fontSize] and [lineHeight] of the function;
    [requestedFontSize] is [None] when the argument is left out. *)
Definition docFontSize (requestedFontSize : option Q) : Q :=
  let requested :=
    match requestedFontSize with
    | Some size => size
    | None => ASCII_MAX_FONT_SIZE
    end in
  let normalizedFontSize :=
    Qmax ASCII_MIN_FONT_SIZE (Qmin ASCII_MAX_FONT_SIZE requested) in
  toFixed2 normalizedFontSize.

(** The number [lineHeight] is the rendering of. *)
Definition docLineHeightValue (requestedFontSize : option Q) : Q :=
  (ASCII_BASE_LINE_HEIGHT
   * Qmax (75 # 100) (docFontSize requestedFontSize / ASCII_MAX_FONT_SIZE))%Q.

Definition docLineHeight (requestedFontSize : option Q) : jsString :=
  NumberToFixed2 (docLineHeightValue requestedFontSize).

(** The template, from the doctype to the width of the wrapper. *)
Definition docPart1 : jsString :=
  concat
    [lit "<!DOCTYPE html>"; [LF]; lit "<html lang="; [DQUOTE]; lit "en";
     [DQUOTE]; lit ">"; [LF]; lit "  <head>"; [LF];
     lit "    <meta charset="; [DQUOTE]; lit "UTF-8"; [DQUOTE]; lit " />";
     [LF]; lit "    <title>Colored ASCII Art</title>"; [LF];
     lit "    <style>"; [LF]; lit "      body {"; [LF];
     lit "        background: #f8fafc;"; [LF];
     lit "        color: #0f172a;"; [LF]; lit "        margin: 0;"; [LF];
     lit "        padding: 24px;"; [LF]; lit "        display: flex;"; [LF];
     lit "        justify-content: center;"; [LF]; lit "      }"; [LF];
     lit "      .ascii-wrapper {"; [LF]; lit "        width: min(100%, "].

(** The template, from the unit of that width to the font size. *)
Definition docPart2 : jsString :=
  concat
    [lit "px);"; [LF]; lit "      }"; [LF]; lit "      pre {"; [LF];
     lit "        font-family: "; [DQUOTE]; lit "JetBrains Mono"; [DQUOTE];
     lit ", "; [DQUOTE]; lit "Fira Code"; [DQUOTE]; lit ", "; [DQUOTE];
     lit "Cascadia Code"; [DQUOTE]; lit ", monospace;"; [LF];
     lit "        font-size: "].

(** The template, from the unit of the font size to the line height. *)
Definition docPart3 : jsString :=
  concat
    [lit "px;"; [LF]; lit "        line-height: "].

(** The template, from the end of the line height to the opening of [pre]. *)
Definition docPart4 : jsString :=
  concat
    [lit ";"; [LF]; lit "        margin: 0;"; [LF];
     lit "        white-space: pre;"; [LF]; lit "        overflow: auto;";
     [LF]; lit "      }"; [LF]; lit "    </style>"; [LF]; lit "  </head>";
     [LF]; lit "  <body>"; [LF]; lit "    <div class="; [DQUOTE];
     lit "ascii-wrapper"; [DQUOTE]; lit ">"; [LF]; lit "      <pre>"].

(** The template, from the closing of [pre] to the end of the document. *)
Definition docPart5 : jsString :=
  concat
    [lit "</pre>"; [LF]; lit "    </div>"; [LF]; lit "  </body>"; [LF];
     lit "</html>"].

Definition buildColorAsciiDocument (content : jsString)
    (requestedFontSize : option Q) : jsString :=
  docPart1 ++ showNumber ASCII_TARGET_WIDTH
  ++ docPart2 ++ showNumber (docFontSize requestedFontSize)
  ++ docPart3 ++ docLineHeight requestedFontSize
  ++ docPart4 ++ content ++ docPart5.

(** ** The copy and download handlers *)

(** What a download handler hands to the browser. *)
Record Download := {
  fileName : jsString;
  mimeType : jsString;
  body : jsString
}.

(** [copyAscii]: the text written to the clipboard. *)
Definition copyAscii (out : Output) : jsString := ascii out.

Definition downloadAscii (out : Output) : Download :=
  {| fileName := lit "ascii_art.txt";
     mimeType := lit "text/plain";
     body := ascii out |}.

(** [copyColorAscii]: the document written to the clipboard, [None]
    when the handler returns at its guard. *)
Definition copyColorAscii (out : Output) (columns : Z) : option jsString :=
  match colorAsciiHtml out with
  | [] => None
  | _ :: _ =>
      Some (buildColorAsciiDocument (colorAsciiHtml out)
              (Some (asciiFontSize columns)))
  end.

Definition downloadColorAscii (out : Output) (columns : Z)
  : option Download :=
  match colorAsciiHtml out with
  | [] => None
  | _ :: _ =>
      Some {| fileName := lit "ascii_art_color.html";
              mimeType := lit "text/html";
              body := buildColorAsciiDocument (colorAsciiHtml out)
                        (Some (asciiFontSize columns)) |}
  end.

(** ** Painting: [getPos], [drawLine] and the pointer handlers *)

Module Paint.

(** A mouse or touch event: the client coordinates of its touches when
    it has a touch list, and its own client coordinates when it has
    them. *)
Record PointerEvent := {
  touches : option (list (Q * Q));
  clientX : option Q;
  clientY : option Q
}.

(** The bounding rectangle of the canvas, of which [getPos] reads the
    left and top edges. *)
Record Rect := {
  rectLeft : Q;
  rectTop : Q
}.

Definition Point : Type := number * number.

(** Numeric conversion of an event property that may be missing. *)
Definition numberOf (v : option Q) : number :=
  match v with
  | Some q => Num q
  | None => NaN
  end.

Definition getPos (rect : Rect) (e : PointerEvent) : Point :=
  match touches e with
  | Some ((tx, ty) :: _) =>
      (sub (Num tx) (Num (rectLeft rect)), sub (Num ty) (Num (rectTop rect)))
  | _ =>
      (sub (numberOf (clientX e)) (Num (rectLeft rect)),
       sub (numberOf (clientY e)) (Num (rectTop rect)))
  end.

(** The brush state of the component. *)
Record Brush := {
  brushColor : jsString;
  brushSize : Q;
  eraser : bool
}.

(** One [stroke ()] of a round-capped line, with the context state it
    is drawn under. *)
Record Stroke := {
  globalCompositeOperation : jsString;
  strokeStyle : jsString;
  lineWidth : Q;
  moveTo : Point;
  lineTo : Point
}.

(** What has been stroked on the visible canvas and, when there is one,
    on the art canvas, oldest first; and the two refs of the pointer
    handlers. *)
Record Painter := {
  visible : list Stroke;
  art : option (list Stroke);
  drawing : bool;
  last : option Point
}.

(** The stroke [drawLine] puts on the visible canvas: erasing cuts the
    line out of it, painting draws it in the brush colour. *)
Definition onCanvas (b : Brush) (p1 p2 : Point) : Stroke :=
  {| globalCompositeOperation :=
       if eraser b then lit "destination-out" else lit "source-over";
     strokeStyle := if eraser b then lit "rgba(0,0,0,1)" else brushColor b;
     lineWidth := brushSize b;
     moveTo := p1;
     lineTo := p2 |}.

(** The stroke it puts on the art canvas: always painted over, in white
    when erasing. *)
Definition onArt (b : Brush) (p1 p2 : Point) : Stroke :=
  {| globalCompositeOperation := lit "source-over";
     strokeStyle := if eraser b then lit "#ffffff" else brushColor b;
     lineWidth := brushSize b;
     moveTo := p1;
     lineTo := p2 |}.

Definition drawLine (b : Brush) (p1 p2 : Point) (s : Painter) : Painter :=
  {| visible := visible s ++ [onCanvas b p1 p2];
     art := match art s with
            | Some strokes => Some (strokes ++ [onArt b p1 p2])
            | None => None
            end;
     drawing := drawing s;
     last := last s |}.

(** The events the canvas listens to. *)
Inductive CanvasEvent :=
| MouseDown (e : PointerEvent)
| MouseMove (e : PointerEvent)
| MouseUp
| MouseLeave
| TouchStart (e : PointerEvent)
| TouchMove (e : PointerEvent)
| TouchEnd.

(** The handlers of the press, move and release events. *)
Definition onDown (rect : Rect) (e : PointerEvent) (s : Painter) : Painter :=
  {| visible := visible s; art := art s;
     drawing := true; last := Some (getPos rect e) |}.

(** A move does nothing unless a stroke is under way; reading the
    position of a [last] that is still [null] throws ([None]). *)
Definition onMove (b : Brush) (rect : Rect) (e : PointerEvent) (s : Painter)
  : option Painter :=
  if negb (drawing s) then Some s
  else
    let pos := getPos rect e in
    match last s with
    | None => None
    | Some from =>
        let s' := drawLine b from pos s in
        Some {| visible := visible s'; art := art s';
                drawing := drawing s'; last := Some pos |}
    end.

Definition onRelease (s : Painter) : Painter :=
  {| visible := visible s; art := art s;
     drawing := false; last := last s |}.

Definition handle (b : Brush) (rect : Rect) (ev : CanvasEvent) (s : Painter)
  : option Painter :=
  match ev with
  | MouseDown e | TouchStart e => Some (onDown rect e s)
  | MouseMove e | TouchMove e => onMove b rect e s
  | MouseUp | MouseLeave | TouchEnd => Some (onRelease s)
  end.

(** A sequence of events, each with the brush and the rectangle of the
    moment it is handled. *)
Fixpoint handleAll (evs : list (Brush * Rect * CanvasEvent)) (s : Painter)
  : option Painter :=
  match evs with
  | [] => Some s
  | (b, rect, ev) :: evs' =>
      match handle b rect ev s with
      | Some s' => handleAll evs' s'
      | None => None
      end
  end.

(** The painter of a freshly mounted component with an art canvas. *)
Definition initialPainter : Painter :=
  {| visible := []; art := Some []; drawing := false; last := None |}.

(** The segments of the polyline through a list of points. *)
Fixpoint segments (from : Point) (pts : list Point) : list (Point * Point) :=
  match pts with
  | [] => []
  | p :: pts' => (from, p) :: segments p pts'
  end.

(** The stroke the art canvas gets for a stroke of the visible canvas:
    the same line, painted over, in white where the visible canvas is
    erased. *)
Definition artStroke (v : Stroke) : Stroke :=
  {| globalCompositeOperation := lit "source-over";
     strokeStyle :=
       if strictEq (globalCompositeOperation v) (lit "destination-out")
       then lit "#ffffff" else strokeStyle v;
     lineWidth := lineWidth v;
     moveTo := moveTo v;
     lineTo := lineTo v |}.

(** The invariant of the two refs: while a stroke is under way, [last]
    holds a position. *)
Definition ready (s : Painter) : Prop :=
  drawing s = true -> last s <> None.

(** Events that press, move or release, from the mouse or a touch. *)
Definition isPress (ev : CanvasEvent) : option PointerEvent :=
  match ev with
  | MouseDown e | TouchStart e => Some e
  | _ => None
  end.

Definition isMove (ev : CanvasEvent) : option PointerEvent :=
  match ev with
  | MouseMove e | TouchMove e => Some e
  | _ => None
  end.

(** A mouse event at a client position, and a touch event with one
    touch there. *)
Definition mouseAt (x y : Q) : PointerEvent :=
  {| touches := None; clientX := Some x; clientY := Some y |}.

Definition touchAt (x y : Q) : PointerEvent :=
  {| touches := Some [(x, y)]; clientX := None; clientY := None |}.

(** The initial brush, and an eraser. *)
Definition pen : Brush :=
  {| brushColor := lit "#000000"; brushSize := 8; eraser := false |}.

Definition rubber : Brush :=
  {| brushColor := lit "#000000"; brushSize := 20; eraser := true |}.

Definition origin : Rect := {| rectLeft := 0; rectTop := 0 |}.

End Paint.

(** ** [drawDots] *)

Module Dots.

(** What [drawDots] paints, in order: a filled rectangle, then filled
    circles ([arc] over the full angle followed by [fill]). *)
Inductive Shape :=
| FillRect (fillStyle : jsString) (x y w h : Q)
| FillCircle (fillStyle : jsString) (x y radius : Q).

(** The values [v] takes in [for (let v = start; v < limit; v += step)],
    for at most [fuel] turns. *)
Fixpoint forSteps (fuel : nat) (v limit step : Q) : list Q :=
  match fuel with
  | O => []
  | S fuel' =>
      if Qle_bool limit v then []
      else v :: forSteps fuel' (v + step) limit step
  end.

(** The number of turns of that loop for a positive step. *)
Definition turns (start limit step : Q) : nat :=
  Z.to_nat (Qceiling ((limit - start) / step)).

(** The loop run to its end, with exact sums.  This stands for the
    source where the step is a positive integer and the start and the
    limit are half the step and an integer of at most 2^31, as in every
    call the component makes: there each value is an odd multiple of one
    half below 2^33, which doubles add exactly.  For other steps the
    source rounds its sums (at step 0.2 it gives a different count) and
    its loop need not end (step 0, or a step lost in rounding). *)
Definition loopValues (start limit step : Q) : list Q :=
  forSteps (turns start limit step) start limit step.

Definition drawDots (width height step dotRadius : Q)
    (bg dot : jsString) : list Shape :=
  FillRect bg 0 0 width height
  :: flat_map
       (fun y =>
          map (fun x => FillCircle dot x y dotRadius)
              (loopValues (step / 2) width step))
       (loopValues (step / 2) height step).

(** The call with the default step, radius and colours, the only one
    the component makes. *)
Definition drawDotsDefault (width height : Z) : list Shape :=
  drawDots (inject_Z width) (inject_Z height) 20 (6 # 10)
           (lit "#f5f5f5") (lit "#cbd5e1").

(** The centres of the circles of a drawing. *)
Fixpoint centres (shapes : list Shape) : list (Q * Q) :=
  match shapes with
  | [] => []
  | FillCircle _ x y _ :: rest => (x, y) :: centres rest
  | FillRect _ _ _ _ _ :: rest => centres rest
  end.

End Dots.
(** ** Loops as concatenations *)

Lemma cellStep_fold (st : Style) (data : list Z) (ow y : Z)
    (xs : list Z) (acc : jsString * jsString) :
  fold_left (cellStep st data ow y) xs acc =
  (fst acc ++ concat (map (fun x => ToString (cellValue st data ow x y)) xs),
   snd acc ++ concat (map (fun x => cellMarkup st data ow x y) xs)).
Proof.
  revert acc.
  induction xs as [|x xs IH]; intros [row colorRow];
    cbn [fold_left map concat fst snd].
  - now rewrite !app_nil_r.
  - rewrite IH. unfold cellStep, cellValue, cellMarkup.
    cbn [fst snd]. now rewrite <- !app_assoc.
Qed.

Lemma rowStep_eq (st : Style) (data : list Z) (ow : Z)
    (acc : jsString * jsString) (y : Z) :
  rowStep st data ow acc y =
  (fst acc ++ rowText st data ow y ++ [LF],
   snd acc ++ rowMarkup st data ow y ++ [LF]).
Proof.
  unfold rowStep. rewrite cellStep_fold. reflexivity.
Qed.

Lemma rowStep_fold (st : Style) (data : list Z) (ow : Z)
    (ys : list Z) (acc : jsString * jsString) :
  fold_left (rowStep st data ow) ys acc =
  (fst acc ++ concat (map (fun y => rowText st data ow y ++ [LF]) ys),
   snd acc ++ concat (map (fun y => rowMarkup st data ow y ++ [LF]) ys)).
Proof.
  revert acc.
  induction ys as [|y ys IH]; intros [result colorResult];
    cbn [fold_left map concat fst snd].
  - now rewrite !app_nil_r.
  - rewrite IH, rowStep_eq. cbn [fst snd]. now rewrite <- !app_assoc.
Qed.

(** The two loops build the rows in order, each followed by a line
    feed. *)
Lemma render_eq (st : Style) (data : list Z) (ow oh : Z) :
  render st data ow oh =
  (concat (map (fun y => rowText st data ow y ++ [LF]) (upto oh)),
   concat (map (fun y => rowMarkup st data ow y ++ [LF]) (upto oh))).
Proof.
  unfold render. rewrite rowStep_fold. reflexivity.
Qed.

Lemma upto_length (n : Z) : length (upto n) = Z.to_nat n.
Proof.
  unfold upto. now rewrite length_map, length_seq.
Qed.

Lemma upto_In (n i : Z) : In i (upto n) <-> 0 <= i < n.
Proof.
  unfold upto. rewrite in_map_iff. split.
  - intros [k [<- Hk]]. apply in_seq in Hk. lia.
  - intros Hi. exists (Z.to_nat i). split; [lia|]. apply in_seq. lia.
Qed.

Lemma upto_nonpos (n : Z) : n <= 0 -> upto n = [].
Proof.
  intros Hn. unfold upto.
  assert (E : Z.to_nat n = 0%nat) by lia.
  now rewrite E.
Qed.

Lemma concat_map_const {A B : Type} (l : list A) (s : list B) :
  concat (map (fun _ => s) l) = concat (repeat s (length l)).
Proof.
  induction l as [|a l IH]; simpl; [reflexivity | now rewrite IH].
Qed.


(** ** Geometry *)

Lemma cellW_pos (W columns : Z) : 1 <= cellW W columns.
Proof. unfold cellW. lia. Qed.

Lemma cellH_pos (cw : Z) (ratio : Q) : 1 <= cellH cw ratio.
Proof. unfold cellH. lia. Qed.

Lemma cellW_le (W columns : Z) :
  1 <= W -> 1 <= columns -> cellW W columns <= W.
Proof.
  intros HW Hc. unfold cellW.
  assert (W / columns <= W) by (apply Z.div_le_upper_bound; nia).
  lia.
Qed.

Lemma out_pos_iff (n c : Z) : 1 <= c -> (1 <= n / c <-> c <= n).
Proof.
  intros Hc. split; intros H.
  - assert (c * (n / c) <= n) by (apply Z.mul_div_le; lia). nia.
  - apply Z.div_le_lower_bound; lia.
Qed.

(** C1 (as amended).  For a raster at least one pixel wide and high and
    a column count of at least one, the output grid is at least one
    cell wide; it is at least one cell high exactly when the cell height
    does not exceed the raster height, and has no row at all when it
    does. *)
Theorem downsample_grid_size (W H columns : Z) (ratio : Q) :
  1 <= W -> 1 <= H -> 1 <= columns ->
  let cw := cellW W columns in
  let ch := cellH cw ratio in
  1 <= outW W cw /\
  (1 <= outH H ch <-> ch <= H) /\
  (H < ch -> outH H ch = 0).
Proof.
  intros HW HH Hc cw ch.
  assert (Hcw : 1 <= cw) by apply cellW_pos.
  assert (Hch : 1 <= ch) by apply cellH_pos.
  assert (Hle : cw <= W) by (apply cellW_le; assumption).
  unfold outW, outH. repeat split.
  - apply out_pos_iff; assumption.
  - apply out_pos_iff; assumption.
  - apply out_pos_iff; assumption.
  - intros Hlt. apply Z.div_small. lia.
Qed.

Lemma downsample_grid_size_witness :
  1 <= outW 100 (cellW 100 10) /\
  (1 <= outH 50 (cellH (cellW 100 10) 2) <-> cellH (cellW 100 10) 2 <= 50) /\
  (50 < cellH (cellW 100 10) 2 -> outH 50 (cellH (cellW 100 10) 2) = 0).
Proof.
  apply (downsample_grid_size 100 50 10 2); lia.
Defined.

(** C1 (counterexample).  A 100 x 5 raster at 10 columns and row
    aspect 2 has cells 20 pixels high, hence an output grid of height
    zero. *)
Lemma downsample_outH_zero :
  1 <= 100 /\ 1 <= 5 /\ 1 <= 10 /\
  cellH (cellW 100 10) 2 = 20 /\
  ~ (1 <= outW 100 (cellW 100 10) /\
     1 <= outH 5 (cellH (cellW 100 10) 2)).
Proof.
  repeat split; try lia; try reflexivity.
  intros [_ H]. vm_compute in H. apply H. reflexivity.
Qed.

(** C7.  When more columns are requested than the raster has pixels in
    a row, the cell width clamps to 1 and the output width is the
    raster width: 1000 columns on a 100-pixel-wide raster give 100. *)
Theorem downsample_columns_exceed_width (W columns : Z) :
  1 <= W -> W < columns ->
  cellW W columns = 1 /\ outW W (cellW W columns) = W.
Proof.
  intros HW Hc.
  assert (E : cellW W columns = 1).
  { unfold cellW. rewrite Z.div_small by lia. reflexivity. }
  split; [exact E|]. rewrite E. unfold outW. apply Z.div_1_r.
Qed.

Lemma downsample_columns_exceed_width_witness :
  cellW 100 1000 = 1 /\ outW 100 (cellW 100 1000) = 100.
Proof.
  apply (downsample_columns_exceed_width 100 1000); lia.
Defined.

(** ** Rasters without pixels *)

(** C2 (as amended).  For a raster of width zero or height zero and a
    column count of at least one, the three divisors of the geometry
    are non-zero, and the conversion writes nothing: the browser throws
    on a canvas without pixels before any setter runs, so the text, the
    markup and the dialog flag are left as they were. *)
Theorem toASCII_empty_raster (source g : Canvas) (st : Style)
    (out : Output) :
  standardCanvas source ->
  width source = 0 \/ height source = 0 ->
  1 <= columns st ->
  let cw := cellW (width source) (columns st) in
  let ch := cellH cw (lineHeightRatio st) in
  (columns st <> 0 /\ cw <> 0 /\ ch <> 0) /\
  toASCII (Some source) (Some g) st out = out.
Proof.
  intros Hstd Hzero Hcols cw ch.
  assert (Hcw : 1 <= cw) by apply cellW_pos.
  assert (Hch : 1 <= ch) by apply cellH_pos.
  split; [lia|].
  unfold toASCII. fold cw ch.
  rewrite (Hstd (outW (width source) cw) (outH (height source) ch)).
  - reflexivity.
  - destruct Hzero as [Hw | Hh]; [left | right; left]; lia.
Qed.

Lemma toASCII_empty_raster_witness :
  let source := canvasOf 0 50 None in
  let st := classicStyle 100 2 in
  (columns st <> 0 /\ cellW 0 100 <> 0 /\ cellH (cellW 0 100) 2 <> 0) /\
  toASCII (Some source) (Some source) st noOutput = noOutput.
Proof.
  intros source st.
  apply (toASCII_empty_raster source source st noOutput).
  - intros ow oh _. reflexivity.
  - left. reflexivity.
  - vm_compute. discriminate.
Defined.

(** C2 (counterexample).  A raster of width 0 and height 50, on which
    the browser throws, converted at 100 columns and row aspect 2 after
    an earlier conversion has left a text and a markup: both are still
    there afterwards, so neither string is empty. *)
Lemma toASCII_zero_width_not_empty :
  let source := canvasOf 0 50 None in
  let st := classicStyle 100 2 in
  let previous :=
    {| ascii := lit "@" ++ [LF];
       colorAsciiHtml := span st (Some 0) (Some 0) (Some 0) ++ [LF];
       showDialog := false |} in
  standardCanvas source /\
  width source = 0 /\
  toASCII (Some source) (Some (canvasOf 0 0 None)) st previous = previous /\
  ascii (toASCII (Some source) (Some (canvasOf 0 0 None)) st previous)
    <> [] /\
  colorAsciiHtml
    (toASCII (Some source) (Some (canvasOf 0 0 None)) st previous) <> [].
Proof.
  intros source st previous.
  split; [intros ow oh _; reflexivity|].
  repeat split; vm_compute; discriminate.
Qed.

(** ** The worked example: a solid green raster *)

(** C3 (as amended).  A 100 x 50 raster of colour (10, 200, 10) at 10
    columns, row aspect 2, the classic palette, no inversion and no
    bias has cells of 10 x 20 pixels and a 10 x 2 grid; every cell gets
    palette index 5, which is the character [+], and the plain text is
    two rows of ten [+], each followed by a line feed. *)
Theorem toASCII_solid_green :
  let source := solidCanvas 100 50 10 200 10 in
  let st := classicStyle 10 2 in
  cellW 100 10 = 10 /\
  cellH 10 2 = 20 /\
  outW 100 10 = 10 /\
  outH 50 20 = 2 /\
  ci st (Some 10) (Some 200) (Some 10) = Some 5 /\
  char st (Some 10) (Some 200) (Some 10) = Str (lit "+") /\
  (forall data x y,
     scaledData source 10 2 = Some data ->
     0 <= x < 10 -> 0 <= y < 2 ->
     cellValue st data 10 x y = Str (lit "+")) /\
  ascii (toASCII (Some source) (Some source) st noOutput)
    = lit "++++++++++" ++ [LF] ++ lit "++++++++++" ++ [LF].
Proof.
  intros source st.
  repeat split; try (vm_compute; reflexivity).
  intros data x y Hdata Hx Hy.
  vm_compute in Hdata. injection Hdata as <-.
  assert (Hxs : In x (upto 10)) by (apply upto_In; lia).
  assert (Hys : In y (upto 2)) by (apply upto_In; lia).
  vm_compute in Hxs, Hys.
  repeat (destruct Hxs as [<- | Hxs]);
    repeat (destruct Hys as [<- | Hys]);
    try contradiction; vm_compute; reflexivity.
Qed.

(** C3 (counterexample).  On that input the plain text is not two rows
    of ten [=]: index 5 of the classic palette holds [+], and [=] sits
    at index 4. *)
Lemma toASCII_solid_green_not_equals_signs :
  let source := solidCanvas 100 50 10 200 10 in
  let st := classicStyle 10 2 in
  ci st (Some 10) (Some 200) (Some 10) = Some 5 /\
  charAt PRESET_Classic (Some 5) <> Str (lit "=") /\
  charAt PRESET_Classic (Some 4) = Str (lit "=") /\
  ascii (toASCII (Some source) (Some source) st noOutput)
    <> lit "==========" ++ [LF] ++ lit "==========" ++ [LF].
Proof.
  repeat split; try (vm_compute; reflexivity); vm_compute; discriminate.
Qed.

(** ** Font size *)

Lemma toFixed2_comp (x y : Q) : (x == y)%Q -> toFixed2 x = toFixed2 y.
Proof.
  intros E. unfold toFixed2. f_equal. apply Qfloor_comp. now rewrite E.
Qed.

Lemma toFixed2_rounds (x : Q) : roundedTo2 x (toFixed2 x).
Proof.
  split.
  - now exists (Qfloor (x * 100 + (1 # 2))).
  - unfold toFixed2.
    set (n := Qfloor (x * 100 + (1 # 2))).
    assert (Hlo : (inject_Z n <= x * 100 + (1 # 2))%Q) by apply Qfloor_le.
    assert (Hhi : (x * 100 + (1 # 2) < inject_Z (n + 1))%Q)
      by apply Qlt_floor.
    rewrite inject_Z_plus in Hhi.
    assert (E : (n # 100 == inject_Z n / 100)%Q) by apply Qmake_Qdiv.
    rewrite E. apply Qabs_Qle_condition.
    change (inject_Z 1) with 1%Q in Hhi.
    clearbody n. clear E. revert Hlo Hhi.
    generalize (inject_Z n). intros q Hlo Hhi.
    set (d := (q / 100)%Q).
    assert (Hd : (q == d * 100)%Q) by (unfold d; field).
    clearbody d. rewrite Hd in Hlo, Hhi.
    split; lra.
Qed.

Lemma clamp_max_min (x lo hi : Q) :
  (lo <= hi)%Q -> (Qmax lo (Qmin hi x) == clamp x lo hi)%Q.
Proof.
  intros Hle. unfold Qmax, Qmin, clamp.
  destruct (Qlt_le_dec x lo) as [Hx | Hx];
    destruct (Qlt_le_dec hi x) as [Hy | Hy];
    destruct (Qle_bool hi x) eqn:E1;
    try (apply Qle_bool_iff in E1);
    try (assert (~ (hi <= x)%Q) by
           (intros C; apply Qle_bool_iff in C; congruence));
    match goal with
    | |- ((if Qle_bool ?a ?b then _ else _) == _)%Q =>
        destruct (Qle_bool a b) eqn:E2;
        try (apply Qle_bool_iff in E2);
        try (assert (~ (a <= b)%Q) by
               (intros C; apply Qle_bool_iff in C; congruence))
    end; lra.
Qed.

(** C9.  For a column count of at least one the derived font size is
    the width-limited size 900 / (columns * 0.6) clamped to [3, 12] and
    rounded to two decimals; at 100 columns the width-limited size is
    15 and the font size is 12. *)
Theorem asciiFontSize_spec (columns : Z) :
  1 <= columns ->
  let clamped :=
    clamp (900 / (inject_Z columns * (6 # 10))) 3 12 in
  asciiFontSize columns = specFontSize columns /\
  roundedTo2 clamped (asciiFontSize columns) /\
  (widthLimitedFont 100 == 15)%Q /\
  (asciiFontSize 100 == 12)%Q.
Proof.
  intros Hc clamped.
  assert (Hmax : Z.max 1 columns = columns) by lia.
  assert (E : (Qmax ASCII_MIN_FONT_SIZE
                 (Qmin ASCII_MAX_FONT_SIZE (widthLimitedFont columns))
               == clamped)%Q).
  { unfold widthLimitedFont. cbv zeta. rewrite Hmax.
    apply clamp_max_min. unfold ASCII_MIN_FONT_SIZE, ASCII_MAX_FONT_SIZE.
    lra. }
  assert (F : asciiFontSize columns = toFixed2 clamped).
  { unfold asciiFontSize. cbv zeta. now apply toFixed2_comp. }
  split; [|split; [|split]].
  - rewrite F. reflexivity.
  - rewrite F. apply toFixed2_rounds.
  - reflexivity.
  - reflexivity.
Qed.

Lemma asciiFontSize_spec_witness :
  asciiFontSize 100 = specFontSize 100 /\
  roundedTo2 (clamp (900 / (inject_Z 100 * (6 # 10))) 3 12)
             (asciiFontSize 100) /\
  (widthLimitedFont 100 == 15)%Q /\
  (asciiFontSize 100 == 12)%Q.
Proof.
  apply (asciiFontSize_spec 100). lia.
Defined.

(** ** The quantiser on defined samples *)

Lemma luma_defined (r g b : Z) :
  luma (Some r) (Some g) (Some b) = Num (lumQ r g b).
Proof. reflexivity. Qed.

Lemma orientedLum_defined (st : Style) (r g b : Z) :
  orientedLum st (Some r) (Some g) (Some b) = Num (orientQ st r g b).
Proof.
  unfold orientedLum, orientQ. destruct (invert st); reflexivity.
Qed.

Lemma ci_defined (st : Style) (r g b : Z) :
  ci st (Some r) (Some g) (Some b) =
  Some (Qfloor (orientQ st r g b
                * inject_Z (Z.of_nat (length (charset st)) - 1)
                + (1 # 2))).
Proof.
  unfold ci. rewrite orientedLum_defined. reflexivity.
Qed.

Lemma clamp01_bounds (v : Q) : (0 <= clamp01 v <= 1)%Q.
Proof.
  unfold clamp01. cbv zeta. case_Qle; split; lra.
Qed.

Lemma clamp01_mono (u v : Q) : (u <= v)%Q -> (clamp01 u <= clamp01 v)%Q.
Proof.
  intros Huv. unfold clamp01. cbv zeta. case_Qle; lra.
Qed.

Lemma clamp01_zero (v : Q) : (v == 0)%Q -> (clamp01 v == 0)%Q.
Proof.
  intros Hv. unfold clamp01. cbv zeta. case_Qle; lra.
Qed.

Lemma orientQ_bounds (st : Style) (r g b : Z) :
  (0 <= orientQ st r g b <= 1)%Q.
Proof.
  unfold orientQ. cbv zeta.
  pose proof (clamp01_bounds (lumQ r g b / 255 + densityBias st / 100)).
  destruct (invert st); cbn [negb]; split; lra.
Qed.

Lemma Qfloor_unique (x : Q) (k : Z) :
  (inject_Z k <= x)%Q -> (x < inject_Z (k + 1))%Q -> Qfloor x = k.
Proof.
  intros Hlo Hhi.
  pose proof (Qfloor_le x) as Fl.
  pose proof (Qlt_floor x) as Fh.
  assert (H1 : (inject_Z (Qfloor x) < inject_Z (k + 1))%Q) by lra.
  assert (H2 : (inject_Z k < inject_Z (Qfloor x + 1))%Q) by lra.
  rewrite <- Zlt_Qlt in H1, H2. lia.
Qed.

Lemma round_range (o : Q) (m : Z) :
  (0 <= o <= 1)%Q -> 0 <= m ->
  0 <= Qfloor (o * inject_Z m + (1 # 2)) <= m.
Proof.
  intros [Ho0 Ho1] Hm.
  assert (Hm' : (0 <= inject_Z m)%Q)
    by (change 0%Q with (inject_Z 0); now rewrite <- Zle_Qle).
  assert (Hp0 : (0 <= o * inject_Z m)%Q) by nra.
  assert (Hp1 : (o * inject_Z m <= inject_Z m)%Q) by nra.
  split.
  - change 0 with (Qfloor 0). apply Qfloor_resp_le. lra.
  - assert (F : Qfloor (inject_Z m + (1 # 2)) = m).
    { apply Qfloor_unique; [lra|]. rewrite inject_Z_plus.
      change (inject_Z 1) with 1%Q. lra. }
    rewrite <- F at 2. apply Qfloor_resp_le. lra.
Qed.

(** The index of a defined sample lies inside a non-empty palette. *)
Lemma ci_range (st : Style) (r g b : Z) :
  charset st <> [] ->
  exists i, ci st (Some r) (Some g) (Some b) = Some i /\
            0 <= i < Z.of_nat (length (charset st)).
Proof.
  intros Hne. rewrite ci_defined. eexists. split; [reflexivity|].
  assert (Hlen : 1 <= Z.of_nat (length (charset st))).
  { destruct (charset st); [congruence | cbn [length]; lia]. }
  pose proof (round_range (orientQ st r g b)
                (Z.of_nat (length (charset st)) - 1)
                (orientQ_bounds st r g b)) as R.
  lia.
Qed.

Lemma charAt_in_range (chars : jsString) (i : Z) :
  0 <= i < Z.of_nat (length chars) ->
  charAt chars (Some i) = Str [nth (Z.to_nat i) chars 0%N].
Proof.
  intros Hi. unfold charAt.
  destruct (Z.ltb_spec i 0) as [Hneg | _]; [lia|].
  rewrite (nth_error_nth' chars 0%N) by lia. reflexivity.
Qed.

(** A defined sample always gets one code unit of the palette. *)
Lemma char_defined (st : Style) (r g b : Z) :
  charset st <> [] ->
  exists c, char st (Some r) (Some g) (Some b) = Str [c] /\
            In c (charset st).
Proof.
  intros Hne. destruct (ci_range st r g b Hne) as [i [Hi Hr]].
  unfold char. rewrite Hi, charAt_in_range by assumption.
  eexists. split; [reflexivity|]. apply nth_In. lia.
Qed.

(** ** Reading the sampled buffer *)

Lemma index_defined (data : list Z) (i : Z) :
  0 <= i < Z.of_nat (length data) -> exists v, index data i = Some v.
Proof.
  intros Hi. unfold index.
  destruct (Z.ltb_spec i 0) as [Hneg | _]; [lia|].
  destruct (nth_error data (Z.to_nat i)) as [v|] eqn:E.
  - now exists v.
  - apply nth_error_None in E. lia.
Qed.

(** A buffer of [4 * ow * oh] bytes has the three channels of every
    cell of the [ow] x [oh] grid. *)
Lemma channels_defined (data : list Z) (ow oh x y : Z) :
  Z.of_nat (length data) = 4 * ow * oh ->
  0 <= x < ow -> 0 <= y < oh ->
  exists r g b,
    red data ow x y = Some r /\
    green data ow x y = Some g /\
    blue data ow x y = Some b.
Proof.
  intros Hlen Hx Hy.
  assert (Hcell : 0 <= y * ow + x <= ow * oh - 1) by nia.
  destruct (index_defined data ((y * ow + x) * 4)) as [r Hr]; [lia|].
  destruct (index_defined data ((y * ow + x) * 4 + 1)) as [g Hg]; [lia|].
  destruct (index_defined data ((y * ow + x) * 4 + 2)) as [b Hb]; [lia|].
  exists r, g, b. unfold red, green, blue. auto.
Qed.

Lemma cellValue_defined (st : Style) (data : list Z) (ow oh x y : Z) :
  charset st <> [] ->
  Z.of_nat (length data) = 4 * ow * oh ->
  0 <= x < ow -> 0 <= y < oh ->
  exists c, cellValue st data ow x y = Str [c] /\ In c (charset st).
Proof.
  intros Hne Hlen Hx Hy.
  destruct (channels_defined data ow oh x y Hlen Hx Hy)
    as [r [g [b [Hr [Hg Hb]]]]].
  unfold cellValue. rewrite Hr, Hg, Hb. now apply char_defined.
Qed.

(** ** Shape of the plain text *)

Lemma concat_map_single {A B : Type} (f : A -> B) (l : list A) :
  concat (map (fun a => [f a]) l) = map f l.
Proof.
  induction l as [|a l IH]; simpl; [reflexivity | now rewrite IH].
Qed.

Lemma rowText_units (st : Style) (data : list Z) (ow oh y : Z) :
  charset st <> [] ->
  Z.of_nat (length data) = 4 * ow * oh ->
  0 <= y < oh ->
  rowText st data ow y = map (fun x => cellUnit st data ow x y) (upto ow).
Proof.
  intros Hne Hlen Hy. unfold rowText.
  rewrite <- (concat_map_single (fun x => cellUnit st data ow x y)).
  f_equal. apply map_ext_in. intros x Hx. apply upto_In in Hx.
  destruct (cellValue_defined st data ow oh x y Hne Hlen Hx Hy)
    as [c [Hc _]].
  unfold cellUnit. rewrite Hc. reflexivity.
Qed.

Lemma render_text (st : Style) (data : list Z) (ow oh : Z) :
  charset st <> [] ->
  Z.of_nat (length data) = 4 * ow * oh ->
  fst (render st data ow oh) = unlines (gridRows st data ow oh).
Proof.
  intros Hne Hlen. rewrite render_eq. cbn [fst].
  unfold unlines, gridRows. rewrite map_map. f_equal.
  apply map_ext_in. intros y Hy. apply upto_In in Hy.
  now rewrite (rowText_units st data ow oh y Hne Hlen Hy).
Qed.

Lemma nth_upto (n i : Z) : 0 <= i < n -> nth (Z.to_nat i) (upto n) 0 = i.
Proof.
  intros Hi. unfold upto.
  change (nth (Z.to_nat i) (map Z.of_nat (seq 0 (Z.to_nat n)))
            (Z.of_nat 0) = i).
  rewrite map_nth, seq_nth by lia. lia.
Qed.

Lemma splitLines_row (row rest : jsString) :
  ~ In LF row ->
  splitLines (row ++ LF :: rest) = row :: splitLines rest.
Proof.
  induction row as [|c row IH]; intros Hno; cbn [app splitLines].
  - rewrite N.eqb_refl. reflexivity.
  - destruct (N.eqb_spec c LF) as [-> | _].
    + exfalso. apply Hno. now left.
    + rewrite IH; [reflexivity|]. intros C. apply Hno. now right.
Qed.

Lemma splitLines_unlines (rows : list jsString) :
  Forall (fun row => ~ In LF row) rows ->
  splitLines (unlines rows) = rows ++ [[]].
Proof.
  unfold unlines.
  induction 1 as [|row rows Hrow _ IH]; cbn [map concat app].
  - reflexivity.
  - rewrite <- app_assoc. cbn [app].
    now rewrite splitLines_row, IH.
Qed.

Lemma gridRows_length (st : Style) (data : list Z) (ow oh : Z) :
  length (gridRows st data ow oh) = Z.to_nat oh.
Proof.
  unfold gridRows. now rewrite length_map, upto_length.
Qed.

Lemma gridRows_widths (st : Style) (data : list Z) (ow oh : Z) :
  Forall (fun row => length row = Z.to_nat ow) (gridRows st data ow oh).
Proof.
  unfold gridRows. apply Forall_map, Forall_forall. intros y _.
  now rewrite length_map, upto_length.
Qed.

Lemma gridRows_nth (st : Style) (data : list Z) (ow oh x y : Z) :
  0 <= x < ow -> 0 <= y < oh ->
  nth (Z.to_nat x) (nth (Z.to_nat y) (gridRows st data ow oh) []) 0%N
  = cellUnit st data ow x y.
Proof.
  intros Hx Hy. unfold gridRows.
  rewrite (nth_indep _ [] (map (fun x => cellUnit st data ow x 0) (upto ow)))
    by (rewrite length_map, upto_length; lia).
  rewrite (map_nth (fun y => map (fun x => cellUnit st data ow x y) (upto ow))
             (upto oh) 0).
  rewrite nth_upto by assumption.
  rewrite (nth_indep _ 0%N (cellUnit st data ow 0 y))
    by (rewrite length_map, upto_length; lia).
  rewrite (map_nth (fun x => cellUnit st data ow x y) (upto ow) 0).
  now rewrite nth_upto.
Qed.

Lemma gridRows_no_LF (st : Style) (data : list Z) (ow oh : Z) :
  charset st <> [] ->
  Z.of_nat (length data) = 4 * ow * oh ->
  ~ In LF (charset st) ->
  Forall (fun row => ~ In LF row) (gridRows st data ow oh).
Proof.
  intros Hne Hlen Hno. unfold gridRows.
  apply Forall_map, Forall_forall. intros y Hy. apply upto_In in Hy.
  intros C. apply in_map_iff in C. destruct C as [x [Hc Hx]].
  apply upto_In in Hx.
  destruct (cellValue_defined st data ow oh x y Hne Hlen Hx Hy)
    as [c [Hv Hin]].
  unfold cellUnit in Hc. rewrite Hv in Hc. congruence.
Qed.

(** C6.  When the grid has at least one column and one row, the palette
    is not empty and the buffer read back has the size of the grid, the
    plain text is the rows of the grid top to bottom, each row the code
    units of its cells left to right followed by a line feed: there are
    [outH] rows of [outW] code units each, and when the palette holds
    no line feed, cutting the text at line feeds gives back exactly
    these rows and an empty piece after the last line feed. *)
Theorem plainText_shape (source g : Canvas) (st : Style) (out : Output)
    (data : list Z) :
  let cw := cellW (width source) (columns st) in
  let ch := cellH cw (lineHeightRatio st) in
  let ow := outW (width source) cw in
  let oh := outH (height source) ch in
  let rows := gridRows st data ow oh in
  let plainText := ascii (toASCII (Some source) (Some g) st out) in
  1 <= ow -> 1 <= oh ->
  charset st <> [] ->
  scaledData source ow oh = Some data ->
  Z.of_nat (length data) = 4 * ow * oh ->
  plainText = unlines rows /\
  length rows = Z.to_nat oh /\
  Forall (fun row => length row = Z.to_nat ow) rows /\
  (forall x y, 0 <= x < ow -> 0 <= y < oh ->
     cellValue st data ow x y
     = Str [nth (Z.to_nat x) (nth (Z.to_nat y) rows []) 0%N]) /\
  (~ In LF (charset st) -> splitLines plainText = rows ++ [[]]).
Proof.
  intros cw ch ow oh rows plainText How Hoh Hne Hdata Hlen.
  assert (Htext : plainText = unlines rows).
  { unfold plainText, toASCII. fold cw ch ow oh. rewrite Hdata.
    cbn [ascii]. now apply render_text. }
  split; [exact Htext|].
  split; [apply gridRows_length|].
  split; [apply gridRows_widths|].
  split.
  - intros x y Hx Hy. unfold rows. rewrite gridRows_nth by assumption.
    destruct (cellValue_defined st data ow oh x y Hne Hlen Hx Hy)
      as [c [Hv _]].
    unfold cellUnit. now rewrite Hv.
  - intros Hno. rewrite Htext. apply splitLines_unlines.
    now apply gridRows_no_LF.
Qed.

Lemma plainText_shape_witness :
  let source := solidCanvas 100 50 10 200 10 in
  let st := classicStyle 10 2 in
  let data := concat (repeat [10; 200; 10; 255] 20) in
  let rows := gridRows st data 10 2 in
  let plainText :=
    ascii (toASCII (Some source) (Some source) st noOutput) in
  plainText = unlines rows /\
  length rows = 2%nat /\
  Forall (fun row => length row = 10%nat) rows /\
  (forall x y, 0 <= x < 10 -> 0 <= y < 2 ->
     cellValue st data 10 x y
     = Str [nth (Z.to_nat x) (nth (Z.to_nat y) rows []) 0%N]) /\
  (~ In LF (charset st) -> splitLines plainText = rows ++ [[]]).
Proof.
  intros source st data rows plainText.
  apply (plainText_shape source source st noOutput data).
  - vm_compute. discriminate.
  - vm_compute. discriminate.
  - vm_compute. discriminate.
  - reflexivity.
  - reflexivity.
Defined.

(** ** Black samples, one-character palettes, monotonicity *)

Lemma Qfloor_half (k : Z) (x : Q) :
  (x == inject_Z k)%Q -> Qfloor (x + (1 # 2)) = k.
Proof.
  intros E. apply Qfloor_unique; [lra|].
  rewrite inject_Z_plus. change (inject_Z 1) with 1%Q. lra.
Qed.

Lemma lumQ_black : (lumQ 0 0 0 == 0)%Q.
Proof. reflexivity. Qed.

Lemma ci_black (st : Style) :
  (densityBias st == 0)%Q ->
  ci st (Some 0) (Some 0) (Some 0) =
  Some (if invert st then 0 else Z.of_nat (length (charset st)) - 1).
Proof.
  intros Hb. rewrite ci_defined. f_equal.
  assert (Hc : (clamp01 (lumQ 0 0 0 / 255 + densityBias st / 100) == 0)%Q).
  { apply clamp01_zero. rewrite Hb. reflexivity. }
  apply Qfloor_half. unfold orientQ. cbv zeta.
  destruct (invert st); cbn [negb]; rewrite Hc.
  - change (inject_Z 0) with 0%Q. lra.
  - lra.
Qed.

Lemma nth_last {A : Type} (l : list A) (d : A) :
  nth (length l - 1) l d = last l d.
Proof.
  induction l as [|a l IH]; [reflexivity|].
  destruct l as [|b l]; [reflexivity|].
  change (nth (length l) (b :: l) d = last (b :: l) d).
  change (length (b :: l) - 1)%nat with (length l - 0)%nat in IH.
  rewrite Nat.sub_0_r in IH. exact IH.
Qed.

Lemma char_black (st : Style) :
  charset st <> [] ->
  (densityBias st == 0)%Q ->
  char st (Some 0) (Some 0) (Some 0) =
  Str [if invert st then hd 0%N (charset st) else last (charset st) 0%N].
Proof.
  intros Hne Hb. unfold char. rewrite (ci_black st Hb).
  assert (Hlen : 1 <= Z.of_nat (length (charset st))).
  { destruct (charset st); [congruence | cbn [length]; lia]. }
  destruct (invert st).
  - rewrite charAt_in_range by lia.
    destruct (charset st); [congruence | reflexivity].
  - rewrite charAt_in_range by lia.
    replace (Z.to_nat (Z.of_nat (length (charset st)) - 1))
      with (length (charset st) - 1)%nat by lia.
    now rewrite nth_last.
Qed.

(** C4.  On a sample grid that is black in every cell, with a palette
    of at least one character and no density bias, every cell gets the
    last palette character when [invert] is off and the first one when
    it is on. *)
Theorem quantize_all_black (st : Style) (data : list Z) (ow oh : Z) :
  charset st <> [] ->
  (densityBias st == 0)%Q ->
  allBlack data ow oh ->
  forall x y, 0 <= x < ow -> 0 <= y < oh ->
    (invert st = false ->
     cellValue st data ow x y = Str [last (charset st) 0%N]) /\
    (invert st = true ->
     cellValue st data ow x y = Str [hd 0%N (charset st)]).
Proof.
  intros Hne Hb Hblack x y Hx Hy.
  destruct (Hblack x y Hx Hy) as [Hr [Hg Hbl]].
  unfold cellValue. rewrite Hr, Hg, Hbl, (char_black st Hne Hb).
  split; intros ->; reflexivity.
Qed.

Lemma quantize_all_black_witness :
  let st := classicStyle 10 2 in
  let data := [0; 0; 0; 255; 0; 0; 0; 255] in
  (invert st = false ->
   cellValue st data 2 1 0 = Str [last (charset st) 0%N]) /\
  (invert st = true ->
   cellValue st data 2 1 0 = Str [hd 0%N (charset st)]).
Proof.
  intros st data.
  apply (quantize_all_black st data 2 1).
  - vm_compute. discriminate.
  - reflexivity.
  - intros x y Hx Hy.
    assert (Ex : x = 0 \/ x = 1) by lia.
    assert (Ey : y = 0) by lia.
    subst y. destruct Ex as [-> | ->]; vm_compute; auto.
  - lia.
  - lia.
Defined.

Lemma ci_single (st : Style) (r g b : Z) :
  length (charset st) = 1%nat ->
  ci st (Some r) (Some g) (Some b) = Some 0.
Proof.
  intros Hlen. rewrite ci_defined, Hlen. f_equal.
  apply Qfloor_unique.
  - change (Z.of_nat 1 - 1) with 0. change (inject_Z 0) with 0%Q. lra.
  - change (Z.of_nat 1 - 1) with 0. change (inject_Z 0) with 0%Q.
    change (inject_Z (0 + 1)) with 1%Q. lra.
Qed.

(** C5.  With a palette of exactly one character, whatever the invert
    flag and for every density bias in [-100, 100], every cell of a
    sample grid gets that character: the oriented luminance is a number
    (not NaN), the index is 0 and the lookup is defined. *)
Theorem quantize_single_char (st : Style) (c : codeUnit) (data : list Z)
    (ow oh : Z) :
  charset st = [c] ->
  (-100 <= densityBias st <= 100)%Q ->
  Z.of_nat (length data) = 4 * ow * oh ->
  forall x y, 0 <= x < ow -> 0 <= y < oh ->
    exists r g b,
      red data ow x y = Some r /\
      green data ow x y = Some g /\
      blue data ow x y = Some b /\
      orientedLum st (Some r) (Some g) (Some b) <> NaN /\
      ci st (Some r) (Some g) (Some b) = Some 0 /\
      cellValue st data ow x y = Str [c].
Proof.
  intros Hc _ Hlen x y Hx Hy.
  destruct (channels_defined data ow oh x y Hlen Hx Hy)
    as [r [g [b [Hr [Hg Hb]]]]].
  exists r, g, b.
  assert (Hone : length (charset st) = 1%nat) by now rewrite Hc.
  repeat (split; [assumption|]).
  split; [rewrite orientedLum_defined; discriminate|].
  split; [now apply ci_single|].
  unfold cellValue, char. rewrite Hr, Hg, Hb, (ci_single st r g b Hone), Hc.
  reflexivity.
Qed.

Lemma quantize_single_char_witness :
  let st := {| columns := 100; lineHeightRatio := 2; charset := lit "#";
               invert := true; densityBias := 100 |} in
  let data := [12; 34; 56; 255; 250; 128; 0; 255] in
  exists r g b,
    red data 2 1 0 = Some r /\
    green data 2 1 0 = Some g /\
    blue data 2 1 0 = Some b /\
    orientedLum st (Some r) (Some g) (Some b) <> NaN /\
    ci st (Some r) (Some g) (Some b) = Some 0 /\
    cellValue st data 2 1 0 = Str (lit "#").
Proof.
  intros st data.
  apply (quantize_single_char st 35%N data 2 1).
  - reflexivity.
  - split; vm_compute; discriminate.
  - reflexivity.
  - lia.
  - lia.
Defined.

Lemma scaled_mono (o1 o2 : Q) (m : Z) :
  0 <= m -> (o1 <= o2)%Q ->
  Qfloor (o1 * inject_Z m + (1 # 2)) <= Qfloor (o2 * inject_Z m + (1 # 2)).
Proof.
  intros Hm Ho.
  assert (Hm' : (0 <= inject_Z m)%Q)
    by (change 0%Q with (inject_Z 0); now rewrite <- Zle_Qle).
  apply Qfloor_resp_le. nra.
Qed.

Lemma normalised_mono (l1 l2 bias : Q) :
  (l1 <= l2)%Q ->
  (clamp01 (l1 / 255 + bias / 100) <= clamp01 (l2 / 255 + bias / 100))%Q.
Proof.
  intros Hl. apply clamp01_mono.
  assert (H : (l1 / 255 <= l2 / 255)%Q).
  { unfold Qdiv. apply Qmult_le_compat_r; [assumption | discriminate]. }
  lra.
Qed.

(** C10.  For a palette of at least two characters and a fixed density
    bias, the palette index is monotone in the luminance
    0.299 r + 0.587 g + 0.114 b of the sample: as the luminance
    increases the index does not increase when [invert] is off, and
    does not decrease when it is on. *)
Theorem quantize_monotone (st : Style) (r1 g1 b1 r2 g2 b2 : Z) :
  (2 <= length (charset st))%nat ->
  (lumQ r1 g1 b1 < lumQ r2 g2 b2)%Q ->
  exists i1 i2,
    ci st (Some r1) (Some g1) (Some b1) = Some i1 /\
    ci st (Some r2) (Some g2) (Some b2) = Some i2 /\
    (invert st = false -> i2 <= i1) /\
    (invert st = true -> i1 <= i2).
Proof.
  intros Hlen Hl. apply Qlt_le_weak in Hl.
  pose proof (normalised_mono _ _ (densityBias st) Hl) as Hc.
  do 2 eexists. rewrite !ci_defined.
  split; [reflexivity|]. split; [reflexivity|].
  unfold orientQ. cbv zeta.
  split; intros ->; cbn [negb]; apply scaled_mono; try lia; lra.
Qed.

Lemma quantize_monotone_witness :
  let st := classicStyle 100 2 in
  exists i1 i2,
    ci st (Some 0) (Some 0) (Some 0) = Some i1 /\
    ci st (Some 255) (Some 255) (Some 255) = Some i2 /\
    (invert st = false -> i2 <= i1) /\
    (invert st = true -> i1 <= i2).
Proof.
  intros st.
  apply (quantize_monotone st 0 0 0 255 255 255).
  - vm_compute. lia.
  - reflexivity.
Defined.

(** ** Markup escaping *)

Lemma strictEq_unit (c d : codeUnit) : strictEq [c] [d] = N.eqb c d.
Proof. cbn [strictEq]. apply andb_true_r. Qed.

Lemma escapeForHtml_other (c : codeUnit) :
  ~ In c replaced -> escapeForHtml (Str [c]) = Str [c].
Proof.
  intros Hc. unfold escapeForHtml.
  change (lit "&") with [AMP]. change (lit "<") with [LT].
  change (lit ">") with [GT]. change (lit "'") with [APOS].
  change (lit " ") with [SPACE].
  rewrite !strictEq_unit.
  repeat match goal with
    | |- context [N.eqb c ?d] =>
        destruct (N.eqb_spec c d) as [E | _];
        [exfalso; apply Hc; rewrite E; unfold replaced; cbn [In]; tauto |]
    end.
  reflexivity.
Qed.

Lemma escapeForHtml_unit (c : codeUnit) :
  exists s, escapeForHtml (Str [c]) = Str s /\ escapedText s.
Proof.
  destruct (in_dec N.eq_dec c replaced) as [Hin | Hout].
  - unfold replaced in Hin. cbn [In] in Hin.
    destruct Hin as [<- | [<- | [<- | [<- | [<- | [<- | []]]]]]];
      eexists; (split; [reflexivity|]); left; unfold entities; cbn [In];
      tauto.
  - exists [c]. split; [now apply escapeForHtml_other|].
    right. constructor; [assumption | constructor].
Qed.

Lemma undefined_text_escaped : escapedText (lit "undefined").
Proof.
  right. repeat constructor; vm_compute; intuition discriminate.
Qed.

(** C8.  [escapeForHtml] is defined on every character: it sends the
    ampersand, the angle brackets, the double quote, the apostrophe and
    the space to their replacement strings (the space to the
    non-breaking form), and every other character to itself; hence in
    the content of any cell of the markup, each of these characters
    occurs only inside a replacement string. *)
Theorem escapeForHtml_total :
  escapeForHtml (Str (lit "&")) = Str (lit "&amp;") /\
  escapeForHtml (Str (lit "<")) = Str (lit "&lt;") /\
  escapeForHtml (Str (lit ">")) = Str (lit "&gt;") /\
  escapeForHtml (Str [DQUOTE]) = Str (lit "&quot;") /\
  escapeForHtml (Str (lit "'")) = Str (lit "&#39;") /\
  escapeForHtml (Str (lit " ")) = Str (lit "&nbsp;") /\
  (forall c : codeUnit,
     ~ In c replaced -> escapeForHtml (Str [c]) = Str [c]) /\
  (forall c : codeUnit,
     exists s, escapeForHtml (Str [c]) = Str s /\ s <> lit " ") /\
  (forall (st : Style) (r g b : option Z),
     escapedText (cellContent st r g b)) /\
  (forall (st : Style) (r g b : option Z),
     span st r g b =
     lit "<span style=" ++ [DQUOTE] ++ lit "color: rgb("
       ++ showElement r ++ lit ", " ++ showElement g ++ lit ", "
       ++ showElement b ++ lit ")" ++ [DQUOTE] ++ lit ">"
       ++ cellContent st r g b ++ lit "</span>").
Proof.
  repeat (split; [reflexivity|]).
  split; [exact escapeForHtml_other|].
  split; [|split].
  - intros c. destruct (escapeForHtml_unit c) as [s [Hs He]].
    exists s. split; [exact Hs|]. intros ->.
    destruct He as [Hin | Hall].
    + unfold entities in Hin. cbn [In] in Hin.
      repeat (destruct Hin as [Hin | Hin]; [discriminate|]). exact Hin.
    + inversion Hall as [|? ? Hsp _]. apply Hsp.
      unfold replaced. cbn [In]. change (N_of_ascii " ") with SPACE. tauto.
  - intros st r g b. unfold cellContent, char, charAt.
    destruct (ci st r g b) as [i|]; [|exact undefined_text_escaped].
    destruct (i <? 0); [exact undefined_text_escaped|].
    destruct (nth_error (charset st) (Z.to_nat i)) as [c|];
      [|exact undefined_text_escaped].
    destruct (escapeForHtml_unit c) as [s [Hs He]]. now rewrite Hs.
  - reflexivity.
Qed.


(** ** The palettes of the component *)

(** Every palette the selector offers is non-empty and holds no line
    feed; their lengths are 10, 70, 5 and 5. *)
Lemma PRESETS_wellformed :
  Forall (fun p => p <> [] /\ ~ In LF p) PRESETS /\
  map (@length codeUnit) PRESETS = [10; 70; 5; 5]%nat.
Proof.
  split; [|reflexivity].
  repeat constructor; try discriminate;
    vm_compute; intuition discriminate.
Qed.

(** ** Exact and double arithmetic *)

(** The three luma weights as doubles. *)
Lemma binary64_luma_weights :
  Binary64.decimal 299 1000 = S754_finite false 5386305154335113 (-54) /\
  Binary64.decimal 587 1000 = S754_finite false 5287225962532962 (-53) /\
  Binary64.decimal 114 1000 = S754_finite false 8214565720323785 (-56).
Proof. repeat split; vm_compute; reflexivity. Qed.

(** On the sample of the worked example the double computation gives
    the index of the exact one. *)
Lemma binary64_solid_green :
  Binary64.ci 10 false 0 10 200 10 = Some 5 /\
  Binary64.ci 10 false 0 10 200 10
  = ci (classicStyle 10 2) (Some 10) (Some 200) (Some 10).
Proof. split; vm_compute; reflexivity. Qed.

(** On a black and on a white sample without bias, for the lengths of
    the four palettes, both computations agree. *)
Lemma binary64_black_white :
  forall len inv v,
    In len [10; 70; 5] -> In v [0; 255] ->
    Binary64.ci len inv 0 v v v =
    Some (if Bool.eqb inv (v =? 0) then 0 else len - 1).
Proof.
  intros len inv v Hlen Hv. cbn [In] in Hlen, Hv.
  destruct Hlen as [<- | [<- | [<- | []]]];
    destruct Hv as [<- | [<- | []]];
    destruct inv; vm_compute; reflexivity.
Qed.

(** At 100 columns the width-limited font size is 15 in doubles too. *)
Lemma binary64_widthLimitedFont_100 :
  Binary64.widthLimitedFont 100 = Binary64.ofZ 15.
Proof. vm_compute. reflexivity. Qed.

(** The two computations part at rounding ties: for the grey 221 under
    a bias of -70 and ten characters the scaled luminance is 7.5
    exactly, and a little less in doubles. *)
Lemma binary64_tie :
  let st := {| columns := 100; lineHeightRatio := 2;
               charset := PRESET_Classic; invert := false;
               densityBias := -70 |} in
  ci st (Some 221) (Some 221) (Some 221) = Some 8 /\
  Binary64.ci 10 false (-70) 221 221 221 = Some 7.
Proof. split; vm_compute; reflexivity. Qed.

(** ** Font size and line height over all column counts *)

Lemma hundredths_le (a b : Z) : a <= b -> (a # 100 <= b # 100)%Q.
Proof. intros H. unfold Qle. cbn [Qnum Qden]. lia. Qed.

Lemma toFixed2_mono (x y : Q) : (x <= y)%Q -> (toFixed2 x <= toFixed2 y)%Q.
Proof.
  intros H. unfold toFixed2. apply hundredths_le, Qfloor_resp_le. lra.
Qed.

Lemma toFixed2_hundredths (n : Z) : toFixed2 (n # 100) = n # 100.
Proof.
  unfold toFixed2. f_equal. apply Qfloor_half.
  rewrite (Qmake_Qdiv n 100). field.
Qed.

Lemma Qmax_mono (a x y : Q) : (x <= y)%Q -> (Qmax a x <= Qmax a y)%Q.
Proof. intros H. unfold Qmax. case_Qle; lra. Qed.

Lemma Qmin_mono (a x y : Q) : (x <= y)%Q -> (Qmin a x <= Qmin a y)%Q.
Proof. intros H. unfold Qmin. case_Qle; lra. Qed.

Lemma Qmax_Qmin_range (lo hi x : Q) :
  (lo <= hi)%Q -> (lo <= Qmax lo (Qmin hi x) <= hi)%Q.
Proof. intros H. unfold Qmax, Qmin. case_Qle; split; lra. Qed.

(** For a column count of at least one the width-limited size is
    [1500 / columns]. *)
Lemma widthLimitedFont_eq (c : Z) :
  1 <= c -> (widthLimitedFont c * inject_Z c == 1500)%Q.
Proof.
  intros Hc. unfold widthLimitedFont. cbv zeta.
  replace (Z.max 1 c) with c by lia.
  unfold ASCII_TARGET_WIDTH, ASCII_CHAR_ASPECT_RATIO.
  assert (Hpos : (0 < inject_Z c)%Q)
    by (change 0%Q with (inject_Z 0); rewrite <- Zlt_Qlt; lia).
  field. lra.
Qed.

Lemma widthLimitedFont_anti (c1 c2 : Z) :
  c1 <= c2 -> (widthLimitedFont c2 <= widthLimitedFont c1)%Q.
Proof.
  intros Hle.
  destruct (Z_le_gt_dec c2 1) as [Hsmall | Hbig].
  - unfold widthLimitedFont. cbv zeta.
    replace (Z.max 1 c2) with 1 by lia.
    replace (Z.max 1 c1) with 1 by lia. lra.
  - pose proof (widthLimitedFont_eq c2 ltac:(lia)) as E2.
    assert (E1 : (widthLimitedFont c1 * inject_Z (Z.max 1 c1) == 1500)%Q).
    { destruct (Z_le_gt_dec c1 1) as [H1 | H1].
      - replace (Z.max 1 c1) with 1 by lia. unfold widthLimitedFont.
        cbv zeta. replace (Z.max 1 c1) with 1 by lia. reflexivity.
      - replace (Z.max 1 c1) with c1 by lia.
        apply widthLimitedFont_eq. lia. }
    assert (Hm : (0 < inject_Z (Z.max 1 c1) <= inject_Z c2)%Q).
    { split.
      - change 0%Q with (inject_Z 0). rewrite <- Zlt_Qlt. lia.
      - rewrite <- Zle_Qle. lia. }
    revert E1 E2 Hm.
    generalize (widthLimitedFont c1), (widthLimitedFont c2),
      (inject_Z (Z.max 1 c1)), (inject_Z c2).
    intros w1 w2 m1 m2 E1 E2 [Hm1 Hm2].
    destruct (Qlt_le_dec w1 w2) as [Hlt | Hge]; [exfalso | exact Hge].
    assert (0 < w1)%Q by nra. nra.
Qed.

Lemma clampedFont_anti (c1 c2 : Z) :
  c1 <= c2 -> (clampedFont c2 <= clampedFont c1)%Q.
Proof.
  intros H. unfold clampedFont.
  apply Qmax_mono, Qmin_mono, widthLimitedFont_anti, H.
Qed.

(** X1.  Whatever the column count, zero and negative ones included,
    the font size stays between the minimum 3 and the maximum 12, and it
    never grows when the column count grows. *)
Theorem asciiFontSize_range_antitone (c1 c2 : Z) :
  c1 <= c2 ->
  (3 <= asciiFontSize c2 <= asciiFontSize c1)%Q /\
  (asciiFontSize c1 <= 12)%Q.
Proof.
  intros Hle.
  assert (Hr : forall c, (3 <= clampedFont c <= 12)%Q).
  { intros c. apply Qmax_Qmin_range. reflexivity || discriminate. }
  change (asciiFontSize c1) with (toFixed2 (clampedFont c1)).
  change (asciiFontSize c2) with (toFixed2 (clampedFont c2)).
  repeat split.
  - apply Qle_trans with (toFixed2 3); [discriminate|].
    apply toFixed2_mono, Hr.
  - apply toFixed2_mono, clampedFont_anti, Hle.
  - apply Qle_trans with (toFixed2 12); [|discriminate].
    apply toFixed2_mono, Hr.
Qed.

Lemma asciiFontSize_range_antitone_witness :
  (3 <= asciiFontSize 400 <= asciiFontSize 40)%Q /\
  (asciiFontSize 40 <= 12)%Q.
Proof.
  apply (asciiFontSize_range_antitone 40 400). lia.
Defined.

(** X2.  The font size is the maximum 12 exactly up to 125 columns and
    the minimum 3 exactly from 500 columns on. *)
Theorem asciiFontSize_saturation (c : Z) :
  ((asciiFontSize c == 12)%Q <-> c <= 125) /\
  ((asciiFontSize c == 3)%Q <-> 500 <= c).
Proof.
  assert (Hr : forall k, (3 <= clampedFont k <= 12)%Q).
  { intros k. apply Qmax_Qmin_range. discriminate. }
  assert (Hanti : forall a b, a <= b ->
                    (asciiFontSize b <= asciiFontSize a)%Q).
  { intros a b Hab. apply toFixed2_mono, clampedFont_anti, Hab. }
  assert (Hlo : (3 <= asciiFontSize c)%Q).
  { apply Qle_trans with (toFixed2 3); [discriminate|].
    apply toFixed2_mono, Hr. }
  assert (Hhi : (asciiFontSize c <= 12)%Q).
  { apply Qle_trans with (toFixed2 12); [|discriminate].
    apply toFixed2_mono, Hr. }
  split; split.
  - intros E. destruct (Z_le_gt_dec c 125) as [H | H]; [exact H|].
    pose proof (Hanti 126 c ltac:(lia)) as H126.
    assert (asciiFontSize 126 < 12)%Q by reflexivity. lra.
  - intros H. pose proof (Hanti c 125 H) as H125.
    assert (asciiFontSize 125 == 12)%Q by reflexivity. lra.
  - intros E. destruct (Z_le_gt_dec 500 c) as [H | H]; [exact H|].
    pose proof (Hanti c 499 ltac:(lia)) as H499.
    assert (3 < asciiFontSize 499)%Q by reflexivity. lra.
  - intros H. pose proof (Hanti 500 c H) as H500.
    assert (asciiFontSize 500 == 3)%Q by reflexivity. lra.
Qed.

(** X3.  Between 125 and 500 columns the text is as wide as the target:
    [columns] characters of width 0.6 times the font size differ from
    900 pixels by at most 0.003 pixel per column. *)
Theorem asciiFontSize_target_width (c : Z) :
  125 <= c <= 500 ->
  (Qabs (inject_Z c * ASCII_CHAR_ASPECT_RATIO * asciiFontSize c
         - ASCII_TARGET_WIDTH) <= (3 # 1000) * inject_Z c)%Q.
Proof.
  intros [Hlo Hhi].
  pose proof (widthLimitedFont_eq c ltac:(lia)) as Ew.
  assert (Hc : (125 <= inject_Z c <= 500)%Q).
  { split; [change 125%Q with (inject_Z 125)
           | change 500%Q with (inject_Z 500)];
      rewrite <- Zle_Qle; lia. }
  assert (Hw : (3 <= widthLimitedFont c <= 12)%Q) by (split; nra).
  assert (Eclamp : (clampedFont c == widthLimitedFont c)%Q).
  { unfold clampedFont, Qmax, Qmin, ASCII_MIN_FONT_SIZE, ASCII_MAX_FONT_SIZE.
    case_Qle; lra. }
  destruct (toFixed2_rounds (clampedFont c)) as [_ Hround].
  change (toFixed2 (clampedFont c)) with (asciiFontSize c) in Hround.
  apply Qabs_Qle_condition in Hround. apply Qabs_Qle_condition.
  unfold ASCII_CHAR_ASPECT_RATIO, ASCII_TARGET_WIDTH.
  revert Ew Hc Eclamp Hround.
  generalize (asciiFontSize c), (clampedFont c), (widthLimitedFont c),
    (inject_Z c).
  intros f k w q Ew Hc Eclamp Hround.
  rewrite Eclamp in Hround. split; nra.
Qed.

Lemma asciiFontSize_target_width_witness :
  (Qabs (inject_Z 137 * ASCII_CHAR_ASPECT_RATIO * asciiFontSize 137
         - ASCII_TARGET_WIDTH) <= (3 # 1000) * inject_Z 137)%Q.
Proof.
  apply (asciiFontSize_target_width 137). lia.
Defined.

Lemma asciiLineHeight_mono (f1 f2 : Q) :
  (f1 <= f2)%Q -> (asciiLineHeight f1 <= asciiLineHeight f2)%Q.
Proof.
  intros H. unfold asciiLineHeight. cbv zeta. apply toFixed2_mono.
  unfold ASCII_BASE_LINE_HEIGHT, ASCII_MAX_FONT_SIZE.
  assert (Hs : (f1 / 12 <= f2 / 12)%Q).
  { unfold Qdiv. apply Qmult_le_compat_r; [assumption | discriminate]. }
  revert Hs. generalize (f1 / 12)%Q, (f2 / 12)%Q. intros s1 s2 Hs.
  unfold Qmax. case_Qle; lra.
Qed.

(** X4.  The line height of the preview lies between 0.83 and 1.1 for
    every column count: it is 1.1 up to 125 columns and 0.83, three
    quarters of the base line height rounded, from 165 columns on. *)
Theorem asciiLineHeight_range (c : Z) :
  (83 # 100 <= asciiLineHeight (asciiFontSize c) <= 11 # 10)%Q /\
  (c <= 125 -> (asciiLineHeight (asciiFontSize c) == 11 # 10)%Q) /\
  (165 <= c -> (asciiLineHeight (asciiFontSize c) == 83 # 100)%Q).
Proof.
  assert (Hr : forall k, (3 <= clampedFont k <= 12)%Q).
  { intros k. apply Qmax_Qmin_range. discriminate. }
  assert (Hanti : forall a b, a <= b ->
                    (asciiFontSize b <= asciiFontSize a)%Q).
  { intros a b Hab. apply toFixed2_mono, clampedFont_anti, Hab. }
  assert (Hlo : (3 <= asciiFontSize c)%Q).
  { apply Qle_trans with (toFixed2 3); [discriminate|].
    apply toFixed2_mono, Hr. }
  assert (Hhi : (asciiFontSize c <= 12)%Q).
  { apply Qle_trans with (toFixed2 12); [|discriminate].
    apply toFixed2_mono, Hr. }
  assert (L3 : (asciiLineHeight 3 == 83 # 100)%Q) by reflexivity.
  assert (L12 : (asciiLineHeight 12 == 11 # 10)%Q) by reflexivity.
  pose proof (asciiLineHeight_mono _ _ Hlo) as Mlo.
  pose proof (asciiLineHeight_mono _ _ Hhi) as Mhi.
  split; [split; lra|]. split.
  - intros H. pose proof (Hanti c 125 H) as H125.
    assert (E : (asciiFontSize 125 == 12)%Q) by reflexivity.
    pose proof (asciiLineHeight_mono 12 (asciiFontSize c)
                  ltac:(lra)) as M. lra.
  - intros H. pose proof (Hanti 165 c H) as H165.
    pose proof (asciiLineHeight_mono _ _ H165) as M.
    assert (E : (asciiLineHeight (asciiFontSize 165) == 83 # 100)%Q)
      by reflexivity.
    lra.
Qed.

Lemma Zrange_In (lo hi c : Z) : lo <= c <= hi -> In c (Zrange lo hi).
Proof.
  intros H. unfold Zrange. apply in_map_iff.
  exists (Z.to_nat (c - lo)). split; [lia|]. apply in_seq. lia.
Qed.

(** X5.  For every column count from 1 to 1000 (the slider offers 40 to
    400) the font size computed in double precision is the font size of
    the exact computation, and for every font size from 3 to 12 in
    steps of a hundredth so is the line height. *)
Theorem binary64_font_agrees (c n : Z) :
  1 <= c <= 1000 -> 300 <= n <= 1200 ->
  Binary64Font.asciiFontSize c = Some (hundredths (asciiFontSize c)) /\
  Binary64Font.asciiLineHeight n
  = Some (hundredths (asciiLineHeight (n # 100))).
Proof.
  intros Hc Hn. split.
  - assert (A : forallb
                  (fun c => match Binary64Font.asciiFontSize c with
                            | Some m => m =? hundredths (asciiFontSize c)
                            | None => false
                            end) (Zrange 1 1000) = true)
      by (vm_compute; reflexivity).
    rewrite forallb_forall in A. specialize (A c (Zrange_In 1 1000 c Hc)).
    destruct (Binary64Font.asciiFontSize c) as [m|]; [|discriminate].
    apply Z.eqb_eq in A. now rewrite A.
  - assert (A : forallb
                  (fun n => match Binary64Font.asciiLineHeight n with
                            | Some m =>
                                m =? hundredths (asciiLineHeight (n # 100))
                            | None => false
                            end) (Zrange 300 1200) = true)
      by (vm_compute; reflexivity).
    rewrite forallb_forall in A. specialize (A n (Zrange_In 300 1200 n Hn)).
    destruct (Binary64Font.asciiLineHeight n) as [m|]; [|discriminate].
    apply Z.eqb_eq in A. now rewrite A.
Qed.

Lemma binary64_font_agrees_witness :
  Binary64Font.asciiFontSize 137 = Some (hundredths (asciiFontSize 137)) /\
  Binary64Font.asciiLineHeight 1095
  = Some (hundredths (asciiLineHeight (1095 # 100))).
Proof.
  apply (binary64_font_agrees 137 1095); lia.
Defined.

(** ** More on the geometry and the quantiser *)

(** X6.  When the raster is at least as wide as the requested column
    count, the grid has at least that many columns and fewer than twice
    as many. *)
Theorem grid_width_between (W columns : Z) :
  1 <= columns <= W ->
  columns <= outW W (cellW W columns) < 2 * columns.
Proof.
  intros [Hc HW]. unfold outW, cellW.
  assert (Hk : 1 <= W / columns) by (apply Z.div_le_lower_bound; lia).
  replace (Z.max 1 (W / columns)) with (W / columns) by lia.
  set (k := W / columns) in *.
  assert (Hlo : columns * k <= W) by (apply Z.mul_div_le; lia).
  assert (Hhi : W < columns * (k + 1)).
  { pose proof (Z.mul_succ_div_gt W columns ltac:(lia)) as H.
    fold k in H. lia. }
  split.
  - apply Z.div_le_lower_bound; lia.
  - apply Z.div_lt_upper_bound; nia.
Qed.

Lemma grid_width_between_witness :
  300 <= outW 1000 (cellW 1000 300) < 2 * 300.
Proof.
  apply (grid_width_between 1000 300). lia.
Defined.

Lemma lumQ_byte_range (r g b : Z) :
  0 <= r <= 255 -> 0 <= g <= 255 -> 0 <= b <= 255 ->
  (0 <= lumQ r g b <= 255)%Q.
Proof.
  intros Hr Hg Hb. unfold lumQ.
  assert (Hq : forall z, 0 <= z <= 255 -> (0 <= inject_Z z <= 255)%Q).
  { intros z [H0 H1]. split.
    - change 0%Q with (inject_Z 0). now rewrite <- Zle_Qle.
    - change 255%Q with (inject_Z 255). now rewrite <- Zle_Qle. }
  pose proof (Hq r Hr). pose proof (Hq g Hg). pose proof (Hq b Hb).
  split; lra.
Qed.

Lemma clamp01_high (v : Q) : (1 <= v)%Q -> (clamp01 v == 1)%Q.
Proof. intros H. unfold clamp01. cbv zeta. case_Qle; lra. Qed.

Lemma clamp01_low (v : Q) : (v <= 0)%Q -> (clamp01 v == 0)%Q.
Proof. intros H. unfold clamp01. cbv zeta. case_Qle; lra. Qed.

Lemma normalised_split (l bias : Q) :
  (l / 255 + bias / 100 == (l * 100 + bias * 255) / 25500)%Q.
Proof. field. Qed.

(** X7.  The density bias saturates: for byte samples a bias of 100 or
    more sends every sample to index 0 when [invert] is off and to the
    last index when it is on, and a bias of -100 or less does the
    opposite. *)
Theorem bias_saturates (st : Style) (r g b : Z) :
  0 <= r <= 255 -> 0 <= g <= 255 -> 0 <= b <= 255 ->
  let last := Z.of_nat (length (charset st)) - 1 in
  ((100 <= densityBias st)%Q ->
   ci st (Some r) (Some g) (Some b)
   = Some (if invert st then last else 0)) /\
  ((densityBias st <= -100)%Q ->
   ci st (Some r) (Some g) (Some b)
   = Some (if invert st then 0 else last)).
Proof.
  intros Hr Hg Hb last.
  pose proof (lumQ_byte_range r g b Hr Hg Hb) as [L0 L1].
  pose proof (normalised_split (lumQ r g b) (densityBias st)) as En.
  split; intros Hbias; rewrite ci_defined; f_equal; fold last;
    apply Qfloor_half; unfold orientQ; cbv zeta.
  - assert (Ec : (clamp01 (lumQ r g b / 255 + densityBias st / 100)
                  == 1)%Q).
    { apply clamp01_high. rewrite En.
      apply Qle_shift_div_l; [reflexivity | lra]. }
    destruct (invert st); cbn [negb]; rewrite Ec.
    + lra.
    + change (inject_Z 0) with 0%Q. lra.
  - assert (Ec : (clamp01 (lumQ r g b / 255 + densityBias st / 100)
                  == 0)%Q).
    { apply clamp01_low. rewrite En.
      apply Qle_shift_div_r; [reflexivity | lra]. }
    destruct (invert st); cbn [negb]; rewrite Ec.
    + change (inject_Z 0) with 0%Q. lra.
    + lra.
Qed.

Lemma bias_saturates_witness :
  let st := {| columns := 100; lineHeightRatio := 2;
               charset := PRESET_Classic; invert := false;
               densityBias := 100 |} in
  ((100 <= densityBias st)%Q ->
   ci st (Some 0) (Some 0) (Some 0)
   = Some (if invert st then 10 - 1 else 0)) /\
  ((densityBias st <= -100)%Q ->
   ci st (Some 0) (Some 0) (Some 0)
   = Some (if invert st then 0 else 10 - 1)).
Proof.
  intros st. apply (bias_saturates st 0 0 0); lia.
Defined.

(** ** The characters of the two artifacts *)

Lemma Forall_concat {A : Type} (P : A -> Prop) (ls : list (list A)) :
  Forall (Forall P) ls -> Forall P (concat ls).
Proof.
  induction 1 as [|l ls Hl _ IH]; cbn [concat].
  - constructor.
  - apply Forall_app. split; assumption.
Qed.

(** X8.  When the palette is not empty and the buffer read back has the
    size of the grid, the plain text is made of palette characters and
    line feeds only. *)
Theorem plainText_alphabet (source g : Canvas) (st : Style) (out : Output)
    (data : list Z) :
  let cw := cellW (width source) (columns st) in
  let ch := cellH cw (lineHeightRatio st) in
  let ow := outW (width source) cw in
  let oh := outH (height source) ch in
  charset st <> [] ->
  scaledData source ow oh = Some data ->
  Z.of_nat (length data) = 4 * ow * oh ->
  Forall (fun u => u = LF \/ In u (charset st))
         (ascii (toASCII (Some source) (Some g) st out)).
Proof.
  intros cw ch ow oh Hne Hdata Hlen.
  unfold toASCII. fold cw ch ow oh. rewrite Hdata. cbn [ascii].
  rewrite render_text by assumption.
  unfold unlines, gridRows. rewrite map_map.
  apply Forall_concat, Forall_map, Forall_forall.
  intros y Hy. apply upto_In in Hy.
  apply Forall_app. split.
  - apply Forall_map, Forall_forall. intros x Hx. apply upto_In in Hx.
    destruct (cellValue_defined st data ow oh x y Hne Hlen Hx Hy)
      as [c [Hv Hin]].
    right. unfold cellUnit. now rewrite Hv.
  - constructor; [now left | constructor].
Qed.

Lemma plainText_alphabet_witness :
  let source := solidCanvas 100 50 10 200 10 in
  let st := classicStyle 10 2 in
  Forall (fun u => u = LF \/ In u (charset st))
         (ascii (toASCII (Some source) (Some source) st noOutput)).
Proof.
  intros source st.
  apply (plainText_alphabet source source st noOutput
           (concat (repeat [10; 200; 10; 255] 20))).
  - vm_compute. discriminate.
  - reflexivity.
  - reflexivity.
Defined.

Lemma map_constant {A B : Type} (b : B) (l : list A) :
  map (fun _ => b) l = repeat b (length l).
Proof.
  induction l as [|a l IH]; cbn [map length repeat]; [reflexivity|].
  now rewrite IH.
Qed.

(** A row whose cells all print the same text. *)
Lemma uniform_rows (st : Style) (data : list Z) (ow oh : Z)
    (text : jsString) :
  (forall x y, 0 <= x < ow -> 0 <= y < oh ->
     ToString (cellValue st data ow x y) = text) ->
  fst (render st data ow oh)
  = unlines (repeat (concat (repeat text (Z.to_nat ow))) (Z.to_nat oh)).
Proof.
  intros Hcell. rewrite render_eq. cbn [fst]. unfold unlines.
  rewrite map_repeat, <- (upto_length oh), <- map_constant. f_equal.
  apply map_ext_in. intros y Hy. apply upto_In in Hy. f_equal.
  unfold rowText. rewrite <- (upto_length ow), <- map_constant. f_equal.
  apply map_ext_in. intros x Hx. apply upto_In in Hx. now apply Hcell.
Qed.

Lemma charAt_empty (ci : option Z) : charAt [] ci = Undefined.
Proof.
  destruct ci as [i|]; [|reflexivity]. unfold charAt.
  destruct (i <? 0); [reflexivity|].
  now destruct (Z.to_nat i).
Qed.

(** X9.  An empty palette is not rejected: every cell lookup is then
    undefined, and each row of the plain text spells the word
    undefined once per column. *)
Theorem empty_palette_text (source g : Canvas) (st : Style) (out : Output)
    (data : list Z) :
  let cw := cellW (width source) (columns st) in
  let ch := cellH cw (lineHeightRatio st) in
  let ow := outW (width source) cw in
  let oh := outH (height source) ch in
  charset st = [] ->
  scaledData source ow oh = Some data ->
  (forall x y, cellValue st data ow x y = Undefined) /\
  ascii (toASCII (Some source) (Some g) st out)
  = unlines (repeat (concat (repeat (lit "undefined") (Z.to_nat ow)))
                    (Z.to_nat oh)).
Proof.
  intros cw ch ow oh Hempty Hdata.
  assert (Hcell : forall x y, cellValue st data ow x y = Undefined).
  { intros x y. unfold cellValue, char. rewrite Hempty.
    apply charAt_empty. }
  split; [exact Hcell|].
  unfold toASCII. fold cw ch ow oh. rewrite Hdata. cbn [ascii].
  apply uniform_rows. intros x y _ _. now rewrite Hcell.
Qed.

Lemma empty_palette_text_witness :
  let source := solidCanvas 20 20 0 0 0 in
  let st := {| columns := 2; lineHeightRatio := 1; charset := [];
               invert := false; densityBias := 0 |} in
  (forall x y,
     cellValue st (concat (repeat [0; 0; 0; 255] 4)) 2 x y = Undefined) /\
  ascii (toASCII (Some source) (Some source) st noOutput)
  = unlines (repeat (concat (repeat (lit "undefined") 2)) 2).
Proof.
  intros source st.
  apply (empty_palette_text source source st noOutput
           (concat (repeat [0; 0; 0; 255] 4))); reflexivity.
Defined.

Lemma nth_error_repeat_pixel (px : list Z) (n k j : nat) :
  length px = 4%nat -> (k < n)%nat -> (j < 4)%nat ->
  nth_error (concat (repeat px n)) (k * 4 + j) = nth_error px j.
Proof.
  intros Hpx. revert k.
  induction n as [|n IH]; intros k Hk Hj; [lia|].
  cbn [repeat concat]. destruct k as [|k].
  - rewrite nth_error_app1 by lia. reflexivity.
  - rewrite nth_error_app2 by lia.
    replace (S k * 4 + j - length px)%nat with (k * 4 + j)%nat by lia.
    apply IH; lia.
Qed.

(** The cells of a solid read-back all read as its colour. *)
Lemma solid_channels (r g b ow oh x y : Z) :
  0 <= x < ow -> 0 <= y < oh ->
  let data := solidBuffer r g b ow oh in
  red data ow x y = Some r /\
  green data ow x y = Some g /\
  blue data ow x y = Some b.
Proof.
  intros Hx Hy data.
  assert (Hcell : 0 <= y * ow + x < ow * oh) by nia.
  assert (Hread : forall j : nat, (j < 4)%nat ->
            index data ((y * ow + x) * 4 + Z.of_nat j)
            = nth_error [r; g; b; 255] j).
  { intros j Hj. unfold index.
    destruct (Z.ltb_spec ((y * ow + x) * 4 + Z.of_nat j) 0); [lia|].
    replace (Z.to_nat ((y * ow + x) * 4 + Z.of_nat j))
      with (Z.to_nat (y * ow + x) * 4 + j)%nat by lia.
    apply nth_error_repeat_pixel; [reflexivity | lia | assumption]. }
  unfold red, green, blue. repeat split.
  - rewrite <- (Z.add_0_r ((y * ow + x) * 4)). apply (Hread 0%nat). lia.
  - apply (Hread 1%nat). lia.
  - apply (Hread 2%nat). lia.
Qed.


(** X10.  A raster read back as a single colour gives a uniform text:
    when the grid has at least one column and one row and every cell of
    the buffer read back has the same colour, every row repeats, once
    per column, what the quantiser prints for that colour. *)
Theorem solid_raster_uniform_text (source g0 : Canvas) (st : Style)
    (out : Output) (r g b : Z) :
  let cw := cellW (width source) (columns st) in
  let ch := cellH cw (lineHeightRatio st) in
  let ow := outW (width source) cw in
  let oh := outH (height source) ch in
  1 <= columns st -> 1 <= ow -> 1 <= oh ->
  scaledData source ow oh = Some (solidBuffer r g b ow oh) ->
  ascii (toASCII (Some source) (Some g0) st out)
  = unlines
      (repeat
         (concat (repeat (ToString (char st (Some r) (Some g) (Some b)))
                         (Z.to_nat ow)))
         (Z.to_nat oh)).
Proof.
  intros cw ch ow oh _ How Hoh Hdata. unfold toASCII.
  fold cw ch ow oh. rewrite Hdata. cbn [ascii].
  apply uniform_rows. intros x y Hx Hy.
  destruct (solid_channels r g b ow oh x y Hx Hy) as [Hr [Hg Hb]].
  unfold cellValue. now rewrite Hr, Hg, Hb.
Qed.

Lemma solid_raster_uniform_text_witness :
  let source := solidCanvas 100 50 10 200 10 in
  let st := classicStyle 10 2 in
  ascii (toASCII (Some source) (Some source) st noOutput)
  = unlines
      (repeat
         (concat (repeat (ToString (char st (Some 10) (Some 200) (Some 10)))
                         10))
         2).
Proof.
  intros source st.
  apply (solid_raster_uniform_text source source st noOutput 10 200 10).
  - vm_compute. discriminate.
  - vm_compute. discriminate.
  - vm_compute. discriminate.
  - reflexivity.
Defined.






(** ** Lines of the markup *)

Lemma charAt_cases (chars : jsString) (ci : option Z) :
  charAt chars ci = Undefined \/
  exists c, In c chars /\ charAt chars ci = Str [c].
Proof.
  unfold charAt. destruct ci as [i|]; [|now left].
  destruct (i <? 0); [now left|].
  destruct (nth_error chars (Z.to_nat i)) as [c|] eqn:E; [|now left].
  right. exists c. split; [|reflexivity]. eapply nth_error_In, E.
Qed.

Lemma lit_cons (a : Ascii.ascii) (s : string) :
  lit (String a s) = N_of_ascii a :: lit s.
Proof. reflexivity. Qed.

Lemma uint_digits_no_LF (d : Decimal.uint) :
  ~ In LF (lit (NilEmpty.string_of_uint d)).
Proof.
  induction d; cbn [NilEmpty.string_of_uint];
    try (rewrite lit_cons; intros [C | C]; [discriminate C | exact (IHd C)]).
  intros [].
Qed.

Lemma showElement_no_LF (v : option Z) : ~ In LF (showElement v).
Proof.
  destruct v as [z|]; cbn [showElement].
  - assert (Hu : forall d, ~ In LF (lit (NilZero.string_of_uint d))).
    { intros d. destruct d; try apply uint_digits_no_LF.
      vm_compute. intuition discriminate. }
    destruct z as [|p|p]; cbn [Z.to_int NilZero.string_of_int].
    + vm_compute. intuition discriminate.
    + apply Hu.
    + rewrite lit_cons. intros [C | C]; [discriminate C | exact (Hu _ C)].
  - vm_compute. intuition discriminate.
Qed.

Lemma cellText_no_LF (st : Style) (r g b : option Z) :
  ~ In LF (charset st) -> ~ In LF (ToString (char st r g b)).
Proof.
  intros Hno. unfold char.
  destruct (charAt_cases (charset st) (ci st r g b)) as [E | [c [Hin E]]];
    rewrite E; cbn [ToString].
  - vm_compute. intuition discriminate.
  - intros [C | []]. apply Hno. now rewrite <- C.
Qed.

Lemma cellContent_no_LF (st : Style) (r g b : option Z) :
  ~ In LF (charset st) -> ~ In LF (cellContent st r g b).
Proof.
  intros Hno. unfold cellContent, char.
  destruct (charAt_cases (charset st) (ci st r g b)) as [E | [c [Hin E]]];
    rewrite E.
  - vm_compute. intuition discriminate.
  - destruct (in_dec N.eq_dec c replaced) as [Hrep | Hrep].
    + unfold replaced in Hrep. cbn [In] in Hrep.
      destruct Hrep as [<- | [<- | [<- | [<- | [<- | [<- | []]]]]]];
        vm_compute; intuition discriminate.
    + rewrite escapeForHtml_other by assumption. cbn [ToString].
      intros [C | []]. apply Hno. now rewrite <- C.
Qed.

Lemma span_no_LF (st : Style) (r g b : option Z) :
  ~ In LF (charset st) -> ~ In LF (span st r g b).
Proof.
  intros Hno. unfold span. fold (cellContent st r g b).
  rewrite !in_app_iff.
  pose proof (showElement_no_LF r). pose proof (showElement_no_LF g).
  pose proof (showElement_no_LF b).
  pose proof (cellContent_no_LF st r g b Hno).
  assert (Hlit : forall s, In s [lit "<span style="; [DQUOTE];
                                 lit "color: rgb("; lit ", "; lit ")";
                                 lit ">"; lit "</span>"] ->
                           ~ In LF s).
  { intros s Hs. cbn [In] in Hs.
    repeat (destruct Hs as [<- | Hs];
            [vm_compute; intuition discriminate|]).
    destruct Hs. }
  intros C.
  repeat (destruct C as [C | C];
          [first [contradiction
                 | revert C; apply Hlit; cbn [In]; tauto]|]).
  first [contradiction | revert C; apply Hlit; cbn [In]; tauto].
Qed.

Lemma concat_no_LF (pieces : list jsString) :
  Forall (fun p => ~ In LF p) pieces -> ~ In LF (concat pieces).
Proof.
  intros H C. apply in_concat in C. destruct C as [p [Hp Hin]].
  rewrite Forall_forall in H. exact (H p Hp Hin).
Qed.

(** X12.  When the palette holds no line feed, the plain text and the
    markup have the same lines: cut at line feeds, each gives one piece
    per grid row, the text or the markup of that row in order, and an
    empty piece after the last line feed.  This needs nothing of the
    buffer read back. *)
Theorem artifacts_same_lines (source g : Canvas) (st : Style)
    (out : Output) (data : list Z) :
  let cw := cellW (width source) (columns st) in
  let ch := cellH cw (lineHeightRatio st) in
  let ow := outW (width source) cw in
  let oh := outH (height source) ch in
  let res := toASCII (Some source) (Some g) st out in
  ~ In LF (charset st) ->
  scaledData source ow oh = Some data ->
  splitLines (ascii res) = map (rowText st data ow) (upto oh) ++ [[]] /\
  splitLines (colorAsciiHtml res)
  = map (rowMarkup st data ow) (upto oh) ++ [[]] /\
  length (splitLines (ascii res)) = S (Z.to_nat oh) /\
  length (splitLines (colorAsciiHtml res)) = S (Z.to_nat oh).
Proof.
  intros cw ch ow oh res Hno Hdata.
  assert (Eres : res = {| ascii := fst (render st data ow oh);
                          colorAsciiHtml := snd (render st data ow oh);
                          showDialog := true |}).
  { unfold res, toASCII. fold cw ch ow oh. now rewrite Hdata. }
  rewrite Eres, render_eq. cbn [ascii colorAsciiHtml fst snd].
  assert (Et : concat (map (fun y => rowText st data ow y ++ [LF]) (upto oh))
               = unlines (map (rowText st data ow) (upto oh)))
    by (unfold unlines; now rewrite map_map).
  assert (Em : concat (map (fun y => rowMarkup st data ow y ++ [LF])
                         (upto oh))
               = unlines (map (rowMarkup st data ow) (upto oh)))
    by (unfold unlines; now rewrite map_map).
  assert (St : splitLines (unlines (map (rowText st data ow) (upto oh)))
               = map (rowText st data ow) (upto oh) ++ [[]]).
  { apply splitLines_unlines, Forall_map, Forall_forall. intros y _.
    unfold rowText. apply concat_no_LF, Forall_map, Forall_forall.
    intros x _. now apply cellText_no_LF. }
  assert (Sm : splitLines (unlines (map (rowMarkup st data ow) (upto oh)))
               = map (rowMarkup st data ow) (upto oh) ++ [[]]).
  { apply splitLines_unlines, Forall_map, Forall_forall. intros y _.
    unfold rowMarkup. apply concat_no_LF, Forall_map, Forall_forall.
    intros x _. now apply span_no_LF. }
  rewrite Et, Em, St, Sm.
  repeat split;
    rewrite length_app, length_map, upto_length; cbn [length]; lia.
Qed.

Lemma artifacts_same_lines_witness :
  let source := solidCanvas 100 50 10 200 10 in
  let st := classicStyle 10 2 in
  let data := concat (repeat [10; 200; 10; 255] 20) in
  let res := toASCII (Some source) (Some source) st noOutput in
  splitLines (ascii res) = map (rowText st data 10) (upto 2) ++ [[]] /\
  splitLines (colorAsciiHtml res)
  = map (rowMarkup st data 10) (upto 2) ++ [[]] /\
  length (splitLines (ascii res)) = 3%nat /\
  length (splitLines (colorAsciiHtml res)) = 3%nat.
Proof.
  intros source st data res.
  apply (artifacts_same_lines source source st noOutput data).
  - vm_compute. intuition discriminate.
  - reflexivity.
Defined.

(** ** More on [escapeForHtml] *)

(** X13.  Escaping twice is escaping once: the six replacement strings
    and every other value pass through unchanged. *)
Theorem escapeForHtml_idempotent (v : value) :
  escapeForHtml (escapeForHtml v) = escapeForHtml v.
Proof.
  destruct v as [|s]; [reflexivity|].
  remember (escapeForHtml (Str s)) as e eqn:He.
  unfold escapeForHtml in He.
  destruct (strictEq s (lit "&")) eqn:E1; [now subst e|].
  destruct (strictEq s (lit "<")) eqn:E2; [now subst e|].
  destruct (strictEq s (lit ">")) eqn:E3; [now subst e|].
  destruct (strictEq s [DQUOTE]) eqn:E4; [now subst e|].
  destruct (strictEq s (lit "'")) eqn:E5; [now subst e|].
  destruct (strictEq s (lit " ")) eqn:E6; [now subst e|].
  subst e. unfold escapeForHtml. now rewrite E1, E2, E3, E4, E5, E6.
Qed.

(** X14.  Two different characters never get the same escaped form, so
    the markup of a cell determines the character it shows. *)
Theorem escapeForHtml_injective (c d : codeUnit) :
  escapeForHtml (Str [c]) = escapeForHtml (Str [d]) -> c = d.
Proof.
  intros E.
  destruct (in_dec N.eq_dec c replaced) as [Hc | Hc];
    destruct (in_dec N.eq_dec d replaced) as [Hd | Hd].
  - unfold replaced in Hc, Hd. cbn [In] in Hc, Hd.
    destruct Hc as [<- | [<- | [<- | [<- | [<- | [<- | []]]]]]];
      destruct Hd as [<- | [<- | [<- | [<- | [<- | [<- | []]]]]]];
      first [reflexivity | vm_compute in E; discriminate E].
  - rewrite (escapeForHtml_other d Hd) in E.
    unfold replaced in Hc. cbn [In] in Hc.
    destruct Hc as [<- | [<- | [<- | [<- | [<- | [<- | []]]]]]];
      vm_compute in E; discriminate E.
  - rewrite (escapeForHtml_other c Hc) in E.
    unfold replaced in Hd. cbn [In] in Hd.
    destruct Hd as [<- | [<- | [<- | [<- | [<- | [<- | []]]]]]];
      vm_compute in E; discriminate E.
  - rewrite (escapeForHtml_other c Hc), (escapeForHtml_other d Hd) in E.
    now injection E.
Qed.

Lemma escapeForHtml_injective_witness : SPACE = SPACE.
Proof.
  apply (escapeForHtml_injective SPACE SPACE). reflexivity.
Defined.

(** ** The export document and the export handlers *)

Lemma toFixedDigits_comp (x y : Q) :
  (x == y)%Q -> toFixedDigits x = toFixedDigits y.
Proof.
  intros E. unfold toFixedDigits.
  assert (F : Qfloor (x * 100 + (1 # 2)) = Qfloor (y * 100 + (1 # 2)))
    by (apply Qfloor_comp; now rewrite E).
  now rewrite F.
Qed.

Lemma NumberToFixed2_nonneg (x : Q) :
  (0 <= x)%Q -> NumberToFixed2 x = toFixedDigits x.
Proof.
  intros H. unfold NumberToFixed2.
  destruct (Qlt_le_dec x 0) as [C | _]; [lra | reflexivity].
Qed.

Lemma toFixed2_nonneg (x : Q) : (0 <= x)%Q -> (0 <= toFixed2 x)%Q.
Proof.
  intros H. apply Qle_trans with (toFixed2 0); [discriminate|].
  now apply toFixed2_mono.
Qed.

(** Printing a number with two decimals and printing its rounding to
    two decimals give the same digits. *)
Lemma NumberToFixed2_rounded (x : Q) :
  (0 <= x)%Q -> NumberToFixed2 (toFixed2 x) = NumberToFixed2 x.
Proof.
  intros H.
  rewrite !NumberToFixed2_nonneg by (try apply toFixed2_nonneg; assumption).
  unfold toFixedDigits.
  assert (F : Qfloor (toFixed2 x * 100 + (1 # 2))
              = Qfloor (x * 100 + (1 # 2))).
  { apply Qfloor_half. unfold toFixed2.
    rewrite (Qmake_Qdiv (Qfloor (x * 100 + (1 # 2))) 100). field. }
  now rewrite F.
Qed.

Lemma asciiFontSize_bounds (c : Z) : (3 <= asciiFontSize c <= 12)%Q.
Proof.
  assert (Hr : (3 <= clampedFont c <= 12)%Q)
    by (apply Qmax_Qmin_range; discriminate).
  change (asciiFontSize c) with (toFixed2 (clampedFont c)). split.
  - apply Qle_trans with (toFixed2 3); [discriminate|].
    apply toFixed2_mono, Hr.
  - apply Qle_trans with (toFixed2 12); [|discriminate].
    apply toFixed2_mono, Hr.
Qed.

(** X15.  The exported document is set like the preview: handed the
    font size of the preview, [buildColorAsciiDocument] prints that very
    font size, and as line height the line height of the preview with
    two decimals. *)
Theorem export_matches_preview (c : Z) :
  let preview := asciiFontSize c in
  docFontSize (Some preview) = preview /\
  docLineHeight (Some preview) = NumberToFixed2 (asciiLineHeight preview).
Proof.
  intros preview.
  pose proof (asciiFontSize_bounds c) as [Hlo Hhi]. fold preview in Hlo, Hhi.
  assert (Efont : docFontSize (Some preview) = preview).
  { unfold docFontSize. cbv zeta.
    assert (Ec : (Qmax ASCII_MIN_FONT_SIZE (Qmin ASCII_MAX_FONT_SIZE preview)
                  == preview)%Q).
    { unfold Qmax, Qmin, ASCII_MIN_FONT_SIZE, ASCII_MAX_FONT_SIZE.
      case_Qle; lra. }
    rewrite (toFixed2_comp _ _ Ec). unfold preview, asciiFontSize.
    cbv zeta. unfold toFixed2 at 2. apply toFixed2_hundredths. }
  split; [exact Efont|].
  unfold docLineHeight, docLineHeightValue. rewrite Efont.
  unfold asciiLineHeight. cbv zeta.
  assert (Ev : (ASCII_BASE_LINE_HEIGHT
                * Qmax (75 # 100) (preview / ASCII_MAX_FONT_SIZE)
                == ASCII_BASE_LINE_HEIGHT
                   * Qmax (preview / ASCII_MAX_FONT_SIZE) (75 # 100))%Q).
  { generalize (preview / ASCII_MAX_FONT_SIZE)%Q. intros s.
    unfold ASCII_BASE_LINE_HEIGHT, Qmax. case_Qle; lra. }
  assert (Hpos : (0 <= ASCII_BASE_LINE_HEIGHT
                       * Qmax (preview / ASCII_MAX_FONT_SIZE) (75 # 100))%Q).
  { generalize (preview / ASCII_MAX_FONT_SIZE)%Q. intros s.
    unfold ASCII_BASE_LINE_HEIGHT, Qmax. case_Qle; lra. }
  rewrite NumberToFixed2_rounded by exact Hpos.
  rewrite !NumberToFixed2_nonneg by (try rewrite Ev; exact Hpos).
  now apply toFixedDigits_comp.
Qed.

(** X16.  Whatever font size is requested, the document prints one
    between 3 and 12, and its line height is between 0.825 and 1.1, that
    is never below three quarters of the base line height; requests of
    12 or more print as 12 and requests of 3 or less as 3. *)
Theorem document_size_clamped (requested : Q) :
  (3 <= docFontSize (Some requested) <= 12)%Q /\
  (825 # 1000 <= docLineHeightValue (Some requested) <= 11 # 10)%Q /\
  ((12 <= requested)%Q -> (docFontSize (Some requested) == 12)%Q) /\
  ((requested <= 3)%Q -> (docFontSize (Some requested) == 3)%Q).
Proof.
  set (normalized :=
         Qmax ASCII_MIN_FONT_SIZE (Qmin ASCII_MAX_FONT_SIZE requested)).
  assert (Hr : (3 <= normalized <= 12)%Q)
    by (apply Qmax_Qmin_range; discriminate).
  assert (Hf : (3 <= docFontSize (Some requested) <= 12)%Q).
  { change (docFontSize (Some requested)) with (toFixed2 normalized). split.
    - apply Qle_trans with (toFixed2 3); [discriminate|].
      apply toFixed2_mono, Hr.
    - apply Qle_trans with (toFixed2 12); [|discriminate].
      apply toFixed2_mono, Hr. }
  split; [exact Hf|]. split; [|split].
  - unfold docLineHeightValue, ASCII_BASE_LINE_HEIGHT, ASCII_MAX_FONT_SIZE.
    destruct Hf as [Hf3 Hf12]. revert Hf3 Hf12.
    generalize (docFontSize (Some requested)). intros f Hf3 Hf12.
    set (s := (f / 12)%Q).
    assert (Hs : (f == s * 12)%Q) by (unfold s; field).
    clearbody s. unfold Qmax. case_Qle; split; lra.
  - intros H. change (docFontSize (Some requested))
      with (toFixed2 normalized).
    assert (E : (normalized == 12)%Q).
    { unfold normalized, Qmax, Qmin, ASCII_MIN_FONT_SIZE,
        ASCII_MAX_FONT_SIZE. case_Qle; lra. }
    now rewrite (toFixed2_comp _ _ E).
  - intros H. change (docFontSize (Some requested))
      with (toFixed2 normalized).
    assert (E : (normalized == 3)%Q).
    { unfold normalized, Qmax, Qmin, ASCII_MIN_FONT_SIZE,
        ASCII_MAX_FONT_SIZE. case_Qle; lra. }
    now rewrite (toFixed2_comp _ _ E).
Qed.

Lemma upto_nonempty (n : Z) : 1 <= n -> exists rest, upto n = 0 :: rest.
Proof.
  intros Hn. unfold upto.
  destruct (Z.to_nat n) as [|k] eqn:E; [lia|].
  cbn [seq map]. eexists. reflexivity.
Qed.

Lemma markup_empty_iff (st : Style) (data : list Z) (ow oh : Z) :
  snd (render st data ow oh) = [] <-> oh <= 0.
Proof.
  rewrite render_eq. cbn [snd]. split.
  - intros E. destruct (Z_le_gt_dec oh 0) as [H | H]; [exact H|].
    destruct (upto_nonempty oh ltac:(lia)) as [rest Hrest].
    rewrite Hrest in E. cbn [map concat] in E.
    apply app_eq_nil in E. destruct E as [E _].
    apply app_eq_nil in E. destruct E as [_ E]. discriminate E.
  - intros H. now rewrite (upto_nonpos oh H).
Qed.

Lemma solidCanvas_standard (w h r g b : Z) :
  standardCanvas (solidCanvas w h r g b).
Proof.
  intros ow oh H. cbn [width height scaledData solidCanvas] in *.
  destruct (Z.leb_spec w 0); [reflexivity|].
  destruct (Z.leb_spec h 0); [reflexivity|].
  destruct (Z.leb_spec ow 0); [reflexivity|].
  destruct (Z.leb_spec oh 0); [reflexivity|]. lia.
Qed.

(** X17.  The colour export follows the markup on the screen.  On a
    canvas that behaves as the browser's, a conversion that completes
    has at least one row, so [copyColorAscii] and [downloadColorAscii]
    both export, and export the same document, built from the markup of
    that conversion at the font size of the column count, while the
    plain copy writes its text; a conversion that throws at the
    read-back leaves every export as it was before; after
    [clearCanvas] the colour exports do nothing. *)
Theorem color_export_guard (source g : Canvas) (st : Style) (out : Output) :
  standardCanvas source ->
  let cw := cellW (width source) (columns st) in
  let ch := cellH cw (lineHeightRatio st) in
  let ow := outW (width source) cw in
  let oh := outH (height source) ch in
  let res := toASCII (Some source) (Some g) st out in
  let cleared := snd (clearCanvas (Some source) res) in
  (forall data,
     scaledData source ow oh = Some data ->
     1 <= oh /\
     copyColorAscii res (columns st)
     = Some (buildColorAsciiDocument (snd (render st data ow oh))
               (Some (asciiFontSize (columns st)))) /\
     option_map body (downloadColorAscii res (columns st))
     = copyColorAscii res (columns st) /\
     copyAscii res = fst (render st data ow oh)) /\
  (scaledData source ow oh = None ->
     copyColorAscii res (columns st) = copyColorAscii out (columns st) /\
     downloadColorAscii res (columns st)
     = downloadColorAscii out (columns st) /\
     copyAscii res = copyAscii out /\
     downloadAscii res = downloadAscii out) /\
  copyColorAscii cleared (columns st) = None /\
  downloadColorAscii cleared (columns st) = None.
Proof.
  intros Hstd cw ch ow oh res cleared.
  split; [|split; [|split; reflexivity]].
  - intros data Hdata.
    assert (Hoh : 1 <= oh).
    { destruct (Z_le_gt_dec oh 0) as [H | H]; [|lia].
      rewrite (Hstd ow oh) in Hdata by tauto. discriminate Hdata. }
    assert (Eres : res = {| ascii := fst (render st data ow oh);
                            colorAsciiHtml := snd (render st data ow oh);
                            showDialog := true |}).
    { unfold res, toASCII. fold cw ch ow oh. now rewrite Hdata. }
    assert (Hne : snd (render st data ow oh) <> []).
    { intros E. apply markup_empty_iff in E. lia. }
    rewrite Eres.
    unfold copyColorAscii, downloadColorAscii, copyAscii.
    cbn [ascii colorAsciiHtml].
    destruct (snd (render st data ow oh)) as [|u us]; [congruence|].
    repeat split; try reflexivity; exact Hoh.
  - intros Hnone.
    assert (Eres : res = out).
    { unfold res, toASCII. fold cw ch ow oh. now rewrite Hnone. }
    rewrite Eres. repeat split; reflexivity.
Qed.

Lemma color_export_guard_witness :
  let st := classicStyle 10 2 in
  let solid := solidCanvas 100 50 10 200 10 in
  let res := toASCII (Some solid) (Some solid) st noOutput in
  let empty := solidCanvas 0 50 10 200 10 in
  let again := toASCII (Some empty) (Some solid) st res in
  (1 <= 2 /\
   copyColorAscii res 10
   = Some (buildColorAsciiDocument
             (snd (render st (solidBuffer 10 200 10 10 2) 10 2))
             (Some (asciiFontSize 10))) /\
   option_map body (downloadColorAscii res 10) = copyColorAscii res 10 /\
   copyAscii res = fst (render st (solidBuffer 10 200 10 10 2) 10 2)) /\
  (copyColorAscii again 10 = copyColorAscii res 10 /\
   downloadColorAscii again 10 = downloadColorAscii res 10 /\
   copyAscii again = copyAscii res /\
   downloadAscii again = downloadAscii res) /\
  copyColorAscii (snd (clearCanvas (Some solid) res)) 10 = None.
Proof.
  intros st solid res empty again.
  split; [|split].
  - apply (color_export_guard solid solid st noOutput
             (solidCanvas_standard 100 50 10 200 10)).
    reflexivity.
  - apply (color_export_guard empty solid st res
             (solidCanvas_standard 0 50 10 200 10)).
    reflexivity.
  - apply (color_export_guard solid solid st noOutput
             (solidCanvas_standard 100 50 10 200 10)).
Defined.

(** ** The pointer handlers *)

Lemma handle_ready (b : Paint.Brush) (rect : Paint.Rect)
    (ev : Paint.CanvasEvent) (s : Paint.Painter) :
  Paint.ready s ->
  exists s', Paint.handle b rect ev s = Some s' /\ Paint.ready s'.
Proof.
  intros Hs. destruct ev as [e | e | | | e | e |]; cbn [Paint.handle].
  1, 5: (eexists; split; [reflexivity|]; intros _; discriminate).
  2, 3, 5: (eexists; split; [reflexivity|]; intros C; discriminate C).
  all: unfold Paint.onMove;
    destruct (Paint.drawing s) eqn:Hd; cbn [negb];
    [ destruct (Paint.last s) as [from|] eqn:Hl;
      [ eexists; split; [reflexivity|]; intros _; discriminate
      | exfalso; now apply (Hs Hd) ]
    | exists s; split; [reflexivity | exact Hs] ].
Qed.

(** X18.  The move handlers never read a missing position: from a
    state in which a stroke under way has a last position, as after
    mounting, every sequence of mouse and touch events is handled
    without a throw and keeps that invariant. *)
Theorem pointer_handlers_never_throw
    (evs : list (Paint.Brush * Paint.Rect * Paint.CanvasEvent))
    (s : Paint.Painter) :
  Paint.ready s ->
  exists s', Paint.handleAll evs s = Some s' /\ Paint.ready s'.
Proof.
  revert s. induction evs as [|[[b rect] ev] evs IH]; intros s Hs.
  - exists s. split; [reflexivity | exact Hs].
  - cbn [Paint.handleAll].
    destruct (handle_ready b rect ev s Hs) as [s1 [E1 H1]].
    rewrite E1. apply IH, H1.
Qed.

Lemma pointer_handlers_never_throw_witness :
  let b := Paint.pen in
  let rect := Paint.origin in
  let e := Paint.mouseAt 5 7 in
  exists s',
    Paint.handleAll [(b, rect, Paint.MouseMove e);
                     (b, rect, Paint.MouseDown e);
                     (b, rect, Paint.MouseMove e)] Paint.initialPainter
    = Some s' /\ Paint.ready s'.
Proof.
  intros b rect e.
  apply (pointer_handlers_never_throw _ Paint.initialPainter).
  intros C. discriminate C.
Defined.

Lemma last_cons_default {A : Type} (a d : A) (l : list A) :
  List.last (a :: l) d = List.last l a.
Proof.
  revert a d. induction l as [|x l IH]; intros a d; [reflexivity|].
  change (List.last (a :: x :: l) d) with (List.last (x :: l) d).
  now rewrite (IH x d), (IH x a).
Qed.

Lemma moves_draw_polyline (b : Paint.Brush) (rect : Paint.Rect)
    (moves : list Paint.CanvasEvent) (es : list Paint.PointerEvent)
    (s : Paint.Painter) (from : Paint.Point) :
  Paint.drawing s = true -> Paint.last s = Some from ->
  map Paint.isMove moves = map Some es ->
  let pts := map (Paint.getPos rect) es in
  exists s',
    Paint.handleAll (map (fun ev => (b, rect, ev)) moves) s = Some s' /\
    Paint.visible s'
    = Paint.visible s
      ++ map (fun pq => Paint.onCanvas b (fst pq) (snd pq))
             (Paint.segments from pts) /\
    Paint.drawing s' = true /\
    Paint.last s' = Some (List.last pts from).
Proof.
  revert es s from.
  induction moves as [|ev moves IH]; intros es s from Hd Hl Hmoves pts.
  - destruct es; [|discriminate Hmoves].
    exists s. cbn. rewrite app_nil_r. auto.
  - destruct es as [|e es]; [discriminate Hmoves|].
    cbn [map] in Hmoves. injection Hmoves as Hev Hrest.
    assert (Hstep : Paint.handle b rect ev s
                    = Paint.onMove b rect e s)
      by (destruct ev; try discriminate Hev; cbn in Hev;
          injection Hev as ->; reflexivity).
    cbn [map Paint.handleAll]. rewrite Hstep.
    unfold Paint.onMove. rewrite Hd, Hl. cbn [negb].
    set (s1 := {| Paint.visible := _ |}).
    assert (Hd1 : Paint.drawing s1 = true) by exact Hd.
    destruct (IH es s1 (Paint.getPos rect e) Hd1 eq_refl Hrest)
      as [s' [Hrun [Hvis [Hdr Hlast]]]].
    exists s'. split; [exact Hrun|]. split; [|split].
    + rewrite Hvis. unfold s1, pts.
      cbn [Paint.visible Paint.drawLine map Paint.segments fst snd].
      now rewrite <- app_assoc.
    + exact Hdr.
    + rewrite Hlast. unfold pts. cbn [map].
      now rewrite last_cons_default.
Qed.

(** X19.  A stroke is the polyline through the pointer positions: a
    press followed by moves, by mouse or by touch, puts on the visible
    canvas one line per move, each from the previous position to the
    new one, and leaves the last position in [last]. *)
Theorem stroke_is_polyline (b : Paint.Brush) (rect : Paint.Rect)
    (press : Paint.CanvasEvent) (e0 : Paint.PointerEvent)
    (moves : list Paint.CanvasEvent) (es : list Paint.PointerEvent)
    (s : Paint.Painter) :
  Paint.isPress press = Some e0 ->
  map Paint.isMove moves = map Some es ->
  let start := Paint.getPos rect e0 in
  let pts := map (Paint.getPos rect) es in
  exists s',
    Paint.handleAll (map (fun ev => (b, rect, ev)) (press :: moves)) s
    = Some s' /\
    Paint.visible s'
    = Paint.visible s
      ++ map (fun pq => Paint.onCanvas b (fst pq) (snd pq))
             (Paint.segments start pts) /\
    Paint.drawing s' = true /\
    Paint.last s' = Some (List.last pts start).
Proof.
  intros Hpress Hmoves start pts.
  assert (Hstep : Paint.handle b rect press s
                  = Some (Paint.onDown rect e0 s))
    by (destruct press; try discriminate Hpress; cbn in Hpress;
        injection Hpress as ->; reflexivity).
  cbn [map Paint.handleAll]. rewrite Hstep.
  destruct (moves_draw_polyline b rect moves es (Paint.onDown rect e0 s)
              start eq_refl eq_refl Hmoves)
    as [s' [Hrun [Hvis [Hdr Hlast]]]].
  exists s'. repeat split; assumption.
Qed.

Lemma stroke_is_polyline_witness :
  let b := Paint.pen in
  let rect := {| Paint.rectLeft := 10; Paint.rectTop := 20 |} in
  let start := Paint.getPos rect (Paint.mouseAt 15 25) in
  let pts := map (Paint.getPos rect) [Paint.mouseAt 16 26; Paint.touchAt 18 30] in
  exists s',
    Paint.handleAll
      (map (fun ev => (b, rect, ev))
           [Paint.MouseDown (Paint.mouseAt 15 25); Paint.MouseMove (Paint.mouseAt 16 26);
            Paint.TouchMove (Paint.touchAt 18 30)]) Paint.initialPainter
    = Some s' /\
    Paint.visible s'
    = Paint.visible Paint.initialPainter
      ++ map (fun pq => Paint.onCanvas b (fst pq) (snd pq))
             (Paint.segments start pts) /\
    Paint.drawing s' = true /\
    Paint.last s' = Some (List.last pts start).
Proof.
  intros b rect start pts.
  apply (stroke_is_polyline b rect (Paint.MouseDown (Paint.mouseAt 15 25)) (Paint.mouseAt 15 25)
           [Paint.MouseMove (Paint.mouseAt 16 26); Paint.TouchMove (Paint.touchAt 18 30)]
           [Paint.mouseAt 16 26; Paint.touchAt 18 30] Paint.initialPainter); reflexivity.
Defined.

(** X20.  Nothing is drawn while no stroke is under way: from a state
    that is not drawing, moves and releases, in any number and order,
    leave both canvases as they are. *)
Theorem idle_pointer_draws_nothing
    (evs : list (Paint.Brush * Paint.Rect * Paint.CanvasEvent))
    (s : Paint.Painter) :
  Paint.drawing s = false ->
  Forall (fun bre => Paint.isPress (snd bre) = None) evs ->
  exists s',
    Paint.handleAll evs s = Some s' /\
    Paint.visible s' = Paint.visible s /\
    Paint.art s' = Paint.art s /\
    Paint.drawing s' = false.
Proof.
  intros Hd Hevs. revert s Hd.
  induction Hevs as [|[[b rect] ev] evs Hev _ IH]; intros s Hd.
  - exists s. auto.
  - cbn [snd] in Hev. cbn [Paint.handleAll].
    assert (Hstep : exists s1, Paint.handle b rect ev s = Some s1 /\
                       Paint.visible s1 = Paint.visible s /\
                       Paint.art s1 = Paint.art s /\
                       Paint.drawing s1 = false).
    { destruct ev; try discriminate Hev; cbn [Paint.handle];
        try (unfold Paint.onMove; rewrite Hd; cbn [negb]);
        eexists; (split; [reflexivity|]); auto. }
    destruct Hstep as [s1 [E1 [V1 [A1 D1]]]]. rewrite E1.
    destruct (IH s1 D1) as [s' [Hrun [Hv [Ha Hdr]]]].
    exists s'. rewrite Hv, Ha. auto.
Qed.

Lemma idle_pointer_draws_nothing_witness :
  let b := Paint.pen in
  let rect := Paint.origin in
  let e := Paint.mouseAt 5 7 in
  exists s',
    Paint.handleAll [(b, rect, Paint.MouseMove e); (b, rect, Paint.MouseUp);
                     (b, rect, Paint.TouchMove e)] Paint.initialPainter
    = Some s' /\
    Paint.visible s' = Paint.visible Paint.initialPainter /\
    Paint.art s' = Paint.art Paint.initialPainter /\
    Paint.drawing s' = false.
Proof.
  intros b rect e.
  apply (idle_pointer_draws_nothing _ Paint.initialPainter).
  - reflexivity.
  - repeat constructor.
Defined.

Lemma artStroke_onCanvas (b : Paint.Brush) (p1 p2 : Paint.Point) :
  Paint.artStroke (Paint.onCanvas b p1 p2) = Paint.onArt b p1 p2.
Proof.
  unfold Paint.artStroke, Paint.onCanvas, Paint.onArt.
  destruct (Paint.eraser b); reflexivity.
Qed.

(** X21.  The hidden art canvas, the one [toASCII] converts, mirrors
    the visible canvas: whatever the events and the brush changes, it
    holds the same lines in the same order and width, painted over in
    the brush colour, and in white where the visible canvas was
    erased. *)
Theorem art_mirrors_visible
    (evs : list (Paint.Brush * Paint.Rect * Paint.CanvasEvent))
    (s s' : Paint.Painter) :
  Paint.art s = Some (map Paint.artStroke (Paint.visible s)) ->
  Paint.handleAll evs s = Some s' ->
  Paint.art s' = Some (map Paint.artStroke (Paint.visible s')).
Proof.
  revert s. induction evs as [|[[b rect] ev] evs IH]; intros s Hs Hrun.
  - cbn in Hrun. injection Hrun as <-. exact Hs.
  - cbn [Paint.handleAll] in Hrun.
    destruct (Paint.handle b rect ev s) as [s1|] eqn:E1; [|discriminate].
    apply (IH s1); [|exact Hrun].
    destruct ev; cbn [Paint.handle] in E1;
      try (injection E1 as <-; exact Hs);
      unfold Paint.onMove in E1;
      (destruct (Paint.drawing s); cbn [negb] in E1;
       [|injection E1 as <-; exact Hs]);
      (destruct (Paint.last s) as [from|]; [|discriminate E1]);
      injection E1 as <-;
      cbn [Paint.art Paint.visible Paint.drawLine];
      rewrite Hs, map_app; cbn [map];
      now rewrite artStroke_onCanvas.
Qed.

Lemma art_mirrors_visible_witness :
  let b := Paint.pen in
  let rubber := Paint.rubber in
  let rect := Paint.origin in
  let s' :=
    {| Paint.visible :=
         [Paint.onCanvas b (Num (1 - 0), Num (1 - 0)) (Num (2 - 0), Num (3 - 0));
          Paint.onCanvas rubber (Num (2 - 0), Num (3 - 0))
            (Num (4 - 0), Num (4 - 0))];
       Paint.art :=
         Some [Paint.onArt b (Num (1 - 0), Num (1 - 0))
                 (Num (2 - 0), Num (3 - 0));
               Paint.onArt rubber (Num (2 - 0), Num (3 - 0))
                 (Num (4 - 0), Num (4 - 0))];
       Paint.drawing := true;
       Paint.last := Some (Num (4 - 0), Num (4 - 0)) |} in
  Paint.art s' = Some (map Paint.artStroke (Paint.visible s')).
Proof.
  intros b rubber rect s'.
  apply (art_mirrors_visible
           [(b, rect, Paint.MouseDown (Paint.mouseAt 1 1));
            (b, rect, Paint.MouseMove (Paint.mouseAt 2 3));
            (rubber, rect, Paint.MouseMove (Paint.mouseAt 4 4))]
           Paint.initialPainter s'); reflexivity.
Defined.

(** ** The dot grid *)

Lemma Qceiling_unique (x : Q) (k : Z) :
  (inject_Z (k - 1) < x)%Q -> (x <= inject_Z k)%Q -> Qceiling x = k.
Proof.
  intros Hlo Hhi.
  pose proof (Qle_ceiling x) as Cl.
  pose proof (Qceiling_lt x) as Ch.
  assert (H1 : (inject_Z (k - 1) < inject_Z (Qceiling x))%Q) by lra.
  assert (H2 : (inject_Z (Qceiling x - 1) < inject_Z k)%Q) by lra.
  rewrite <- Zlt_Qlt in H1, H2. lia.
Qed.

(** The turns left after one more step. *)
Lemma turns_step (v limit step : Q) :
  (0 < step)%Q -> (v < limit)%Q ->
  Dots.turns v limit step = S (Dots.turns (v + step) limit step).
Proof.
  intros Hstep Hv. unfold Dots.turns.
  set (x := ((limit - v) / step)%Q).
  assert (Ex : ((limit - (v + step)) / step == x - 1)%Q)
    by (unfold x; field; lra).
  rewrite (Qceiling_comp _ _ Ex).
  assert (Hx : (0 < x)%Q).
  { unfold x. apply Qlt_shift_div_l; lra. }
  assert (Hc : 1 <= Qceiling x).
  { pose proof (Qle_ceiling x) as Cl.
    assert (H : (inject_Z 0 < inject_Z (Qceiling x))%Q)
      by (change (inject_Z 0) with 0%Q; lra).
    rewrite <- Zlt_Qlt in H. lia. }
  assert (E : Qceiling (x - 1) = Qceiling x - 1).
  { pose proof (Qle_ceiling x) as Cl. pose proof (Qceiling_lt x) as Ch.
    apply Qceiling_unique.
    - replace (Qceiling x - 1 - 1) with (Qceiling x - 1 + -1) by lia.
      rewrite inject_Z_plus. change (inject_Z (-1)) with (-1)%Q. lra.
    - replace (Qceiling x - 1) with (Qceiling x + -1) by lia.
      rewrite inject_Z_plus. change (inject_Z (-1)) with (-1)%Q. lra. }
  rewrite E. lia.
Qed.

Lemma turns_done (v limit step : Q) :
  (0 < step)%Q -> (limit <= v)%Q -> Dots.turns v limit step = 0%nat.
Proof.
  intros Hstep Hv. unfold Dots.turns.
  assert (Hx : ((limit - v) / step <= 0)%Q).
  { apply Qle_shift_div_r; lra. }
  pose proof (Qceiling_resp_le _ _ Hx) as Hc.
  change (Qceiling 0) with 0 in Hc. lia.
Qed.

(** With the turns of the loop as fuel, the loop ends at its test: more
    fuel changes nothing. *)
Lemma forSteps_enough (extra : nat) (v limit step : Q) :
  (0 < step)%Q ->
  Dots.forSteps (Dots.turns v limit step + extra) v limit step
  = Dots.loopValues v limit step.
Proof.
  intros Hstep. unfold Dots.loopValues.
  remember (Dots.turns v limit step) as n eqn:Hn.
  revert v Hn. induction n as [|n IH]; intros v Hn.
  - destruct extra as [|extra]; [reflexivity|].
    cbn [Nat.add Dots.forSteps].
    destruct (Qle_bool limit v) eqn:E; [reflexivity|].
    exfalso.
    assert (Hv : (v < limit)%Q).
    { apply Qnot_le_lt. intros C. apply Qle_bool_iff in C. congruence. }
    rewrite (turns_step v limit step Hstep Hv) in Hn. discriminate Hn.
  - cbn [Nat.add Dots.forSteps].
    destruct (Qle_bool limit v) eqn:E; [reflexivity|].
    assert (Hv : (v < limit)%Q).
    { apply Qnot_le_lt. intros C. apply Qle_bool_iff in C. congruence. }
    rewrite (turns_step v limit step Hstep Hv) in Hn.
    injection Hn as Hn. f_equal. now apply IH.
Qed.

Lemma forSteps_range (fuel : nat) (v limit step : Q) :
  (0 <= step)%Q ->
  Forall (fun u => (v <= u < limit)%Q) (Dots.forSteps fuel v limit step).
Proof.
  intros Hstep. revert v.
  induction fuel as [|fuel IH]; intros v; cbn [Dots.forSteps].
  - constructor.
  - destruct (Qle_bool limit v) eqn:E; [constructor|].
    assert (Hv : (v < limit)%Q).
    { apply Qnot_le_lt. intros C. apply Qle_bool_iff in C. congruence. }
    constructor; [lra|].
    eapply Forall_impl; [|apply IH]. cbv beta. intros u Hu. lra.
Qed.

Lemma loopValues_length (v limit step : Q) :
  (0 < step)%Q ->
  length (Dots.loopValues v limit step) = Dots.turns v limit step.
Proof.
  intros Hstep. unfold Dots.loopValues.
  remember (Dots.turns v limit step) as n eqn:Hn.
  revert v Hn. induction n as [|n IH]; intros v Hn; [reflexivity|].
  cbn [Dots.forSteps].
  destruct (Qle_bool limit v) eqn:E.
  - apply Qle_bool_iff in E.
    rewrite (turns_done v limit step Hstep E) in Hn. discriminate Hn.
  - assert (Hv : (v < limit)%Q).
    { apply Qnot_le_lt. intros C. apply Qle_bool_iff in C. congruence. }
    rewrite (turns_step v limit step Hstep Hv) in Hn.
    injection Hn as Hn. cbn [length]. f_equal. now apply IH.
Qed.

Lemma centres_row (dot : jsString) (y r : Q) (xs : list Q) :
  Dots.centres (map (fun x => Dots.FillCircle dot x y r) xs)
  = map (fun x => (x, y)) xs.
Proof.
  induction xs as [|x xs IH]; cbn [map Dots.centres]; [reflexivity|].
  now rewrite IH.
Qed.

Lemma centres_app (a b : list Dots.Shape) :
  Dots.centres (a ++ b) = Dots.centres a ++ Dots.centres b.
Proof.
  induction a as [|s a IH]; [reflexivity|].
  destruct s; cbn [app Dots.centres]; now rewrite IH.
Qed.

Lemma centres_drawDots (width height step r : Q) (bg dot : jsString) :
  Dots.centres (Dots.drawDots width height step r bg dot)
  = flat_map (fun y => map (fun x => (x, y))
                           (Dots.loopValues (step / 2) width step))
             (Dots.loopValues (step / 2) height step).
Proof.
  unfold Dots.drawDots. cbn [Dots.centres].
  induction (Dots.loopValues (step / 2) height step) as [|y ys IH];
    [reflexivity|].
  cbn [flat_map]. now rewrite centres_app, centres_row, IH.
Qed.

(** The values of the loop are the start plus whole steps. *)
Lemma forSteps_affine (fuel : nat) (v limit step : Q) :
  Forall (fun u => exists i : Z, 0 <= i /\ (u == v + inject_Z i * step)%Q)
         (Dots.forSteps fuel v limit step).
Proof.
  revert v. induction fuel as [|fuel IH]; intros v; cbn [Dots.forSteps].
  - constructor.
  - destruct (Qle_bool limit v); [constructor|].
    constructor.
    + exists 0. split; [lia|]. change (inject_Z 0) with 0%Q. ring.
    + eapply Forall_impl; [|apply IH]. cbv beta.
      intros u [i [Hi Hu]]. exists (i + 1). split; [lia|].
      rewrite Hu, inject_Z_plus. change (inject_Z 1) with 1%Q. ring.
Qed.

Lemma half_steps (s i : Z) :
  (inject_Z s / 2 + inject_Z i * inject_Z s
   == inject_Z ((2 * i + 1) * s) / 2)%Q.
Proof.
  rewrite inject_Z_mult, inject_Z_plus, inject_Z_mult.
  change (inject_Z 2) with 2%Q. change (inject_Z 1) with 1%Q. field.
Qed.

(** X22.  For a step that is a positive integer and a canvas of integer
    size, none above 2^31, the two loops of [drawDots] end at their
    tests, and every dot is centred inside the canvas, at least half a
    step from its left and top edges, on an odd multiple of half the
    step (a value the source computes without rounding): no dot is
    drawn on a canvas that is not wider and higher than half a step. *)
Theorem drawDots_inside_canvas (w h s : Z) (r : Q) (bg dot : jsString) :
  1 <= s <= 2 ^ 31 -> 0 <= w <= 2 ^ 31 -> 0 <= h <= 2 ^ 31 ->
  let width := inject_Z w in
  let height := inject_Z h in
  let step := inject_Z s in
  let dots := Dots.centres (Dots.drawDots width height step r bg dot) in
  (forall extra,
     Dots.forSteps (Dots.turns (step / 2) width step + extra)
                   (step / 2) width step
     = Dots.loopValues (step / 2) width step /\
     Dots.forSteps (Dots.turns (step / 2) height step + extra)
                   (step / 2) height step
     = Dots.loopValues (step / 2) height step) /\
  Forall (fun c => (step / 2 <= fst c < width)%Q /\
                   (step / 2 <= snd c < height)%Q) dots /\
  Forall (fun c => exists i j : Z,
            0 <= i /\ 0 <= j /\
            (fst c == inject_Z ((2 * i + 1) * s) / 2)%Q /\
            (snd c == inject_Z ((2 * j + 1) * s) / 2)%Q /\
            (2 * i + 1) * s < 2 ^ 32 /\ (2 * j + 1) * s < 2 ^ 32) dots /\
  ((width <= step / 2)%Q \/ (height <= step / 2)%Q -> dots = []).
Proof.
  intros Hs Hw Hh width height step dots.
  assert (Hstep : (0 < step)%Q).
  { unfold step. change 0%Q with (inject_Z 0). rewrite <- Zlt_Qlt. lia. }
  assert (Hs0 : (0 <= step)%Q) by lra.
  pose proof (forSteps_range (Dots.turns (step / 2) width step)
                (step / 2) width step Hs0) as Hxs.
  pose proof (forSteps_range (Dots.turns (step / 2) height step)
                (step / 2) height step Hs0) as Hys.
  pose proof (forSteps_affine (Dots.turns (step / 2) width step)
                (step / 2) width step) as Axs.
  pose proof (forSteps_affine (Dots.turns (step / 2) height step)
                (step / 2) height step) as Ays.
  fold (Dots.loopValues (step / 2) width step) in Hxs, Axs.
  fold (Dots.loopValues (step / 2) height step) in Hys, Ays.
  assert (Hbound : forall (n i : Z) (u : Q),
            0 <= n <= 2 ^ 31 ->
            (u < inject_Z n)%Q ->
            (u == inject_Z ((2 * i + 1) * s) / 2)%Q ->
            (2 * i + 1) * s < 2 ^ 32).
  { intros n i u Hn Hu Eu.
    assert (H : (inject_Z ((2 * i + 1) * s) < inject_Z (2 * n))%Q).
    { rewrite (inject_Z_mult 2 n). change (inject_Z 2) with 2%Q.
      generalize dependent (inject_Z ((2 * i + 1) * s)).
      intros q Eu.
      assert (Eq : (q == u * 2)%Q) by (rewrite Eu; field). lra. }
    rewrite <- Zlt_Qlt in H. lia. }
  unfold dots. rewrite centres_drawDots.
  split; [|split; [|split]].
  - intros extra. split; now apply forSteps_enough.
  - apply Forall_forall. intros [x y] Hin.
    apply in_flat_map in Hin. destruct Hin as [y' [Hy' Hin]].
    apply in_map_iff in Hin. destruct Hin as [x' [E Hx']].
    injection E as -> ->. rewrite Forall_forall in Hxs, Hys.
    cbn [fst snd]. split; [apply Hxs | apply Hys]; assumption.
  - apply Forall_forall. intros [x y] Hin.
    apply in_flat_map in Hin. destruct Hin as [y' [Hy' Hin]].
    apply in_map_iff in Hin. destruct Hin as [x' [E Hx']].
    injection E as -> ->.
    rewrite Forall_forall in Hxs, Hys, Axs, Ays.
    destruct (Axs x Hx') as [i [Hi Ex]].
    destruct (Ays y Hy') as [j [Hj Ey]].
    unfold step in Ex, Ey. rewrite half_steps in Ex, Ey.
    exists i, j. cbn [fst snd].
    split; [exact Hi|]. split; [exact Hj|].
    split; [exact Ex|]. split; [exact Ey|].
    split.
    + apply (Hbound w i x Hw); [apply (Hxs x Hx') | exact Ex].
    + apply (Hbound h j y Hh); [apply (Hys y Hy') | exact Ey].
  - intros Hsmall. destruct Hsmall as [Hsmall | Hsmall].
    + assert (E : Dots.loopValues (step / 2) width step = []).
      { unfold Dots.loopValues.
        now rewrite (turns_done _ _ _ Hstep Hsmall). }
      rewrite E. clear Hys Ays.
      induction (Dots.loopValues (step / 2) height step) as [|y ys IH];
        [reflexivity | exact IH].
    + assert (E : Dots.loopValues (step / 2) height step = []).
      { unfold Dots.loopValues.
        now rewrite (turns_done _ _ _ Hstep Hsmall). }
      now rewrite E.
Qed.

Lemma drawDots_inside_canvas_witness :
  let width := inject_Z 50 in
  let height := inject_Z 31 in
  let step := inject_Z 7 in
  let dots :=
    Dots.centres
      (Dots.drawDots width height step (6 # 10) (lit "#f5f5f5")
         (lit "#cbd5e1")) in
  (forall extra,
     Dots.forSteps (Dots.turns (step / 2) width step + extra)
                   (step / 2) width step
     = Dots.loopValues (step / 2) width step /\
     Dots.forSteps (Dots.turns (step / 2) height step + extra)
                   (step / 2) height step
     = Dots.loopValues (step / 2) height step) /\
  Forall (fun c => (step / 2 <= fst c < width)%Q /\
                   (step / 2 <= snd c < height)%Q) dots /\
  Forall (fun c => exists i j : Z,
            0 <= i /\ 0 <= j /\
            (fst c == inject_Z ((2 * i + 1) * 7) / 2)%Q /\
            (snd c == inject_Z ((2 * j + 1) * 7) / 2)%Q /\
            (2 * i + 1) * 7 < 2 ^ 32 /\ (2 * j + 1) * 7 < 2 ^ 32) dots /\
  ((width <= step / 2)%Q \/ (height <= step / 2)%Q -> dots = []).
Proof.
  apply (drawDots_inside_canvas 50 31 7 (6 # 10) (lit "#f5f5f5")
           (lit "#cbd5e1")); lia.
Defined.

Lemma default_turns (w : Z) :
  0 <= w -> Dots.turns (20 / 2) (inject_Z w) 20 = Z.to_nat ((w + 9) / 20).
Proof.
  intros Hw. unfold Dots.turns. f_equal.
  set (k := (w + 9) / 20).
  assert (Hlo : 20 * k <= w + 9) by (apply Z.mul_div_le; lia).
  assert (Hhi : w + 9 < 20 * (k + 1)).
  { pose proof (Z.mul_succ_div_gt (w + 9) 20 ltac:(lia)) as H.
    fold k in H. lia. }
  assert (Qlo : (inject_Z (20 * k - 9) <= inject_Z w)%Q)
    by (rewrite <- Zle_Qle; lia).
  assert (Qhi : (inject_Z w <= inject_Z (20 * k + 10))%Q)
    by (rewrite <- Zle_Qle; lia).
  unfold Z.sub in Qlo. rewrite inject_Z_plus, inject_Z_mult in Qlo.
  rewrite inject_Z_plus, inject_Z_mult in Qhi.
  change (inject_Z 20) with 20%Q in Qlo, Qhi.
  change (inject_Z (- (9))) with (-9)%Q in Qlo.
  change (inject_Z 10) with 10%Q in Qhi.
  apply Qceiling_unique.
  - replace (k - 1) with (k + -1) by lia. rewrite inject_Z_plus.
    change (inject_Z (-1)) with (-1)%Q.
    apply Qlt_shift_div_l; [reflexivity|].
    assert (E : (20 / 2 == 10)%Q) by reflexivity. rewrite E. lra.
  - apply Qle_shift_div_r; [reflexivity|].
    assert (E : (20 / 2 == 10)%Q) by reflexivity. rewrite E. lra.
Qed.

Lemma flat_map_length_const {A B : Type} (f : A -> list B) (l : list A)
    (n : nat) :
  (forall a, length (f a) = n) -> length (flat_map f l) = (length l * n)%nat.
Proof.
  intros Hf. induction l as [|a l IH]; [reflexivity|].
  cbn [flat_map length]. rewrite length_app, Hf, IH. lia.
Qed.

(** X23.  On a canvas of [w] by [h] pixels the component draws one
    background rectangle over the whole canvas and a grid of
    [(w + 9) / 20] by [(h + 9) / 20] dots (integer divisions), starting
    10 pixels from the left and top edges. *)
Theorem drawDotsDefault_count (w h : Z) :
  0 <= w -> 0 <= h ->
  hd_error (Dots.drawDotsDefault w h)
  = Some (Dots.FillRect (lit "#f5f5f5") 0 0 (inject_Z w) (inject_Z h)) /\
  length (Dots.centres (Dots.drawDotsDefault w h))
  = Z.to_nat (((w + 9) / 20) * ((h + 9) / 20)) /\
  (10 < w -> 10 < h ->
   exists x y rest,
     Dots.centres (Dots.drawDotsDefault w h) = (x, y) :: rest /\
     (x == 10)%Q /\ (y == 10)%Q).
Proof.
  intros Hw Hh. split; [reflexivity|].
  unfold Dots.drawDotsDefault. rewrite centres_drawDots.
  assert (Hstep : (0 < 20)%Q) by reflexivity.
  split.
  - rewrite (flat_map_length_const _ _
               (length (Dots.loopValues (20 / 2) (inject_Z w) 20)))
      by (intros y; apply length_map).
    rewrite !loopValues_length, !default_turns by assumption.
    assert (0 <= (w + 9) / 20) by (apply Z.div_pos; lia).
    assert (0 <= (h + 9) / 20) by (apply Z.div_pos; lia).
    lia.
  - intros Hw1 Hh1.
    assert (Hfirst : forall n : Z, 10 < n ->
              exists rest,
                Dots.loopValues (20 / 2) (inject_Z n) 20
                = (20 / 2)%Q :: rest).
    { intros n Hn. unfold Dots.loopValues.
      rewrite default_turns by lia.
      assert (Hk : 1 <= (n + 9) / 20)
        by (apply Z.div_le_lower_bound; lia).
      destruct (Z.to_nat ((n + 9) / 20)) as [|m] eqn:E; [lia|].
      cbn [Dots.forSteps].
      destruct (Qle_bool (inject_Z n) (20 / 2)) eqn:C.
      - exfalso. apply Qle_bool_iff in C.
        assert (Q10 : (inject_Z 10 < inject_Z n)%Q)
          by (rewrite <- Zlt_Qlt; lia).
        change (inject_Z 10) with 10%Q in Q10.
        assert (E10 : (20 / 2 == 10)%Q) by reflexivity. lra.
      - eexists. reflexivity. }
    destruct (Hfirst w Hw1) as [xs Exs].
    destruct (Hfirst h Hh1) as [ys Eys].
    rewrite Exs, Eys. cbn [flat_map map app].
    do 3 eexists. split; [reflexivity|]. split; reflexivity.
Qed.

Lemma drawDotsDefault_count_witness :
  hd_error (Dots.drawDotsDefault 1280 720)
  = Some (Dots.FillRect (lit "#f5f5f5") 0 0 (inject_Z 1280)
            (inject_Z 720)) /\
  length (Dots.centres (Dots.drawDotsDefault 1280 720))
  = Z.to_nat (((1280 + 9) / 20) * ((720 + 9) / 20)) /\
  (10 < 1280 -> 10 < 720 ->
   exists x y rest,
     Dots.centres (Dots.drawDotsDefault 1280 720) = (x, y) :: rest /\
     (x == 10)%Q /\ (y == 10)%Q).
Proof.
  apply (drawDotsDefault_count 1280 720); lia.
Defined.
